(** * The shop data model (shop/main/models.py): discounts, codes, reviews,
      likes, carts and categories

    A shallow embedding of the Django models of [shop/main/models.py] and of
    their derived-value methods.  Model instances are records, the database is
    a record of tables (lists of rows, in the order the storage engine
    enumerates them), and a method is a computation that may read the clock
    ([timezone.now()]), read the instance it is bound to, query or change the
    database, and raise. *)

From Stdlib Require Import ZArith QArith List String Bool Lia Permutation.
From Stdlib Require Import DecimalString Floats.
Import ListNotations.
Open Scope Z_scope.

(** ** Field types *)

(** A [DateTimeField]: an instant, as microseconds since the epoch.  Aware
    datetimes compare by instant. *)
Definition DateTime := Z.

(** A [DecimalField] with [decimal_places=2]: the number of hundredths
    (10.00 is 1000).  Decimals compare exactly. *)
Definition Decimal := Z.

(** A primary key or the value of a foreign-key column. *)
Definition Pk := Z.

(** ** Model rows *)

Module Customer.
Record t := mk {
  id : Pk;
  user : Pk;            (* OneToOneField(AUTH_USER_MODEL, CASCADE) *)
  phone : string;
  address : string;
  created_at : DateTime }.
End Customer.

Module Category.
Record t := mk {
  id : Pk;
  name : string;
  parent : option Pk;   (* ForeignKey('self', SET_NULL, null=True) *)
  description : string;
  created_at : DateTime }.
End Category.

Module Discount.
Record t := mk {
  id : Pk;
  name : string;
  percentage : Decimal;
  value : option Decimal;
  start_time : DateTime;
  end_time : DateTime }.
End Discount.

Module DiscountCode.
Record t := mk {
  id : Pk;
  code : string;
  discount : Pk;             (* ForeignKey(Discount, CASCADE) *)
  usage_limit : option Z;    (* None means unlimited *)
  used_count : Z;
  valid_from : DateTime;
  valid_to : DateTime }.
End DiscountCode.

Module Product.
Inductive Kind := product | package.
Record t := mk {
  id : Pk;
  name : string;
  slug : string;
  description : string;
  category : Pk;             (* ForeignKey(Category, CASCADE) *)
  kind : Kind;
  price : Decimal;
  stock : Z;
  image : option string;
  is_limited : bool;
  created_at : DateTime;
  updated_at : DateTime;
  times_purchased : Z }.
End Product.

Module Review.
Record t := mk {
  id : Pk;
  product : Pk;              (* ForeignKey(Product, CASCADE) *)
  user : Pk;                 (* ForeignKey(Customer, CASCADE) *)
  rating : Z;
  text : string;
  created_at : DateTime }.
End Review.

Module ProductLike.
Record t := mk {
  id : Pk;
  user : Pk;                 (* ForeignKey(Customer, CASCADE) *)
  product : Pk;              (* ForeignKey(Product, CASCADE) *)
  created_at : DateTime }.
End ProductLike.

Module Cart.
Record t := mk {
  id : Pk;
  customer : Pk;             (* OneToOneField(Customer, CASCADE) *)
  ordered : bool;
  ordered_date : option DateTime;
  created_at : DateTime }.
End Cart.

Module CartItem.
Record t := mk {
  id : Pk;
  cart : Pk;                 (* ForeignKey(Cart, CASCADE) *)
  product : Pk;              (* ForeignKey(Product, CASCADE) *)
  quantity : Z;
  added_at : DateTime }.
End CartItem.

(** ** The database *)

(** One table per model, and one link table per many-to-many field
    ([Discount.products], [Discount.categories]); a link row is
    [(discount_id, other_id)]. *)
Record Store := mkStore {
  customers : list Customer.t;
  categories : list Category.t;
  discounts : list Discount.t;
  discount_products : list (Pk * Pk);
  discount_categories : list (Pk * Pk);
  discount_codes : list DiscountCode.t;
  products : list Product.t;
  reviews : list Review.t;
  product_likes : list ProductLike.t;
  carts : list Cart.t;
  cart_items : list CartItem.t }.

Definition empty_store : Store := mkStore [] [] [] [] [] [] [] [] [] [] [].

(** A model instance in memory, together with the database it came from. *)
Record Bound (Self : Type) := bind_to {
  instance : Self;
  database : Store }.
Arguments bind_to {Self} _ _.
Arguments instance {Self} _.
Arguments database {Self} _.

(** ** Computations *)

Inductive Exn : Type := IntegrityError | DoesNotExist.

(** A computation over a state [S]: it is given the clock's reading and the
    state, and gives back a value or an exception, and the state it leaves. *)
Definition M (S A : Type) : Type := DateTime -> S -> (Exn + A) * S.

Section Monad.
Context {S : Type}.

Definition ret {A} (a : A) : M S A := fun _ s => (inr a, s).

Definition raise {A} (e : Exn) : M S A := fun _ s => (inl e, s).

Definition bind {A B} (m : M S A) (k : A -> M S B) : M S B :=
  fun now s =>
    match m now s with
    | (inr a, s') => k a now s'
    | (inl e, s') => (inl e, s')
    end.

(** [timezone.now()] *)
Definition timezone_now : M S DateTime := fun now s => (inr now, s).

Definition gets {A} (f : S -> A) : M S A := fun _ s => (inr (f s), s).

Definition put (s : S) : M S unit := fun _ _ => (inr tt, s).

Definition modify (f : S -> S) : M S unit := fun _ s => (inr tt, f s).

Definition eval {A} (m : M S A) (now : DateTime) (s : S) : Exn + A :=
  fst (m now s).

Definition exec {A} (m : M S A) (now : DateTime) (s : S) : S :=
  snd (m now s).

(** A computation that leaves every state as it found it. *)
Definition read_only {A} (m : M S A) : Prop :=
  forall now s, exec m now s = s.
End Monad.

Notation "x <- m ;; k" := (bind m (fun x => k))
  (at level 61, m at next level, right associativity).

Notation "m ;;; k" := (bind m (fun _ => k))
  (at level 61, right associativity).

(** The instance a method is called on. *)
Definition get_self {Self} : M (Bound Self) Self := gets instance.

(** ** Discount *)

(** [Discount.is_active]:
<<
    now = timezone.now()
    return self.start_time <= now <= self.end_time
>> *)
Definition Discount_is_active : M (Bound Discount.t) bool :=
  now <- timezone_now ;;
  self <- get_self ;;
  ret ((Discount.start_time self <=? now) && (now <=? Discount.end_time self)).

(** ** DiscountCode *)

(** [DiscountCode.is_valid]:
<<
    now = timezone.now()
    if self.valid_from <= now <= self.valid_to:
        if self.usage_limit is None or self.used_count < self.usage_limit:
            return True
    return False
>> *)
Definition DiscountCode_is_valid : M (Bound DiscountCode.t) bool :=
  now <- timezone_now ;;
  self <- get_self ;;
  if (DiscountCode.valid_from self <=? now) && (now <=? DiscountCode.valid_to self)
  then
    if match DiscountCode.usage_limit self with
       | None => true
       | Some limit => DiscountCode.used_count self <? limit
       end
    then ret true
    else ret false
  else ret false.

(** ** Built-ins *)

Section Sorted.
Context {A : Type} (key : A -> Z) (reverse : bool).

(** [y] stays in front of a later-inserted [x] only when its key is strictly
    better; on equal keys the element that came first stays first. *)
Definition strictly_before (y x : A) : bool :=
  if reverse then key x <? key y else key y <? key x.

Fixpoint insert_sorted (x : A) (l : list A) : list A :=
  match l with
  | [] => [x]
  | y :: l' => if strictly_before y x then y :: insert_sorted x l' else x :: l
  end.

(** [sorted(l, key=key, reverse=reverse)].  Python's sort is stable, also with
    [reverse=True]: elements with equal keys keep the order of [l].  A stable
    sort by a total order on keys has one possible result, the one this
    insertion sort computes. *)
Definition sorted (l : list A) : list A := fold_right insert_sorted [] l.

(** No element of [l] is strictly better than one in front of it. *)
Definition in_order (l : list A) : Prop :=
  forall i j a b, (i < j)%nat -> nth_error l i = Some a -> nth_error l j = Some b ->
                  strictly_before b a = false.
End Sorted.

(** An integer taken to a double, rounded to the nearest one. *)
Definition float_of_int (n : Z) : float :=
  SF2Prim (binary_normalize prec emax n 0 false).

(** [Avg] over a column of integers, as the aggregate comes back to Python:
    [None] (NULL) on no rows, else a float, the quotient in double precision
    of the sum by the number of rows, each taken to a double (the [avg] of
    SQLite, the backend of a default Django project). *)
Definition Avg (column : list Z) : option float :=
  match column with
  | [] => None
  | _ => Some (PrimFloat.div (float_of_int (fold_right Z.add 0 column))
                              (float_of_int (Z.of_nat (List.length column))))
  end.

(** A Python number: an [int] or a [float]. *)
Inductive Number : Type :=
| Int (n : Z)
| Float (x : float).

(** [x or 0] for an optional float: [None] and zero (of either sign) are
    falsy and give the int 0; any other float, NaN too, is truthy. *)
Definition or_0 (x : option float) : Number :=
  match x with
  | None => Int 0
  | Some x => if PrimFloat.eqb x 0%float then Int 0 else Float x
  end.


(** ** Product *)

(** The lookup [start_time__lte=now, end_time__gte=now]. *)
Definition window_contains (now : DateTime) (d : Discount.t) : bool :=
  (Discount.start_time d <=? now) && (Discount.end_time d >=? now).

(** [product.discounts]: the discounts linked to the product through
    [Discount.products] ([related_name='discounts']), listed here in table
    order.  The query has no [order_by]: the order in which the database
    hands the rows back is its own, see [Product_available_discount_in]. *)
Definition Product_discounts (st : Store) (product_id : Pk) : list Discount.t :=
  filter (fun d => existsb (fun l => (fst l =? Discount.id d) && (snd l =? product_id))
                     (discount_products st))
         (discounts st).

(** [category.discounts]: the discounts linked to the category through
    [Discount.categories] ([related_name='discounts']), listed here in table
    order.  The query has no [order_by]: the order in which the database
    hands the rows back is its own, see [Product_available_discount_in]. *)
Definition Category_discounts (st : Store) (category_id : Pk) : list Discount.t :=
  filter (fun d => existsb (fun l => (fst l =? Discount.id d) && (snd l =? category_id))
                     (discount_categories st))
         (discounts st).

(** [product.category]: the row the foreign key points to; the descriptor
    raises [DoesNotExist] when there is none. *)
Definition Product_category : M (Bound Product.t) Category.t :=
  self <- get_self ;;
  st <- gets database ;;
  match find (fun c => Category.id c =? Product.category self) (categories st) with
  | Some c => ret c
  | None => raise DoesNotExist
  end.

(** [Product.available_discount]:
<<
    now = timezone.now()
    product_ds = self.discounts.filter(start_time__lte=now, end_time__gte=now)
    category_ds = self.category.discounts.filter(start_time__lte=now, end_time__gte=now)
    return sorted(list(product_ds) + list(category_ds),
                  key=lambda d: d.percentage, reverse=True)[:1]
>> *)
Definition Product_available_discount : M (Bound Product.t) (list Discount.t) :=
  now <- timezone_now ;;
  self <- get_self ;;
  st <- gets database ;;
  let product_ds := filter (window_contains now) (Product_discounts st (Product.id self)) in
  category <- Product_category ;;
  let category_ds :=
    filter (window_contains now) (Category_discounts st (Category.id category)) in
  ret (firstn 1 (sorted Discount.percentage true (product_ds ++ category_ds))).

(** *** The order of the querysets *)

(** Neither queryset of [available_discount] has an [order_by], and
    [Discount] declares no [Meta.ordering]: the database hands the selected
    rows back in an order of its own, which may differ between the two
    queries.  [product_order] and [category_order] stand for it: each takes
    the rows a query selects to the list the database returns for them.
    [Product_available_discount] above is the method with both orders the
    table's. *)
Section QuerysetOrder.
Variables product_order category_order : list Discount.t -> list Discount.t.

(** [list(self.discounts.filter(start_time__lte=now, end_time__gte=now))] *)
Definition product_ds_in (st : Store) (now : DateTime) (product_id : Pk)
  : list Discount.t :=
  product_order (filter (window_contains now) (Product_discounts st product_id)).

(** [list(self.category.discounts.filter(start_time__lte=now, end_time__gte=now))] *)
Definition category_ds_in (st : Store) (now : DateTime) (category_id : Pk)
  : list Discount.t :=
  category_order (filter (window_contains now) (Category_discounts st category_id)).

(** [Product.available_discount], whatever the order of the querysets:
<<
    now = timezone.now()
    product_ds = self.discounts.filter(start_time__lte=now, end_time__gte=now)
    category_ds = self.category.discounts.filter(start_time__lte=now, end_time__gte=now)
    return sorted(list(product_ds) + list(category_ds),
                  key=lambda d: d.percentage, reverse=True)[:1]
>> *)
Definition Product_available_discount_in : M (Bound Product.t) (list Discount.t) :=
  now <- timezone_now ;;
  self <- get_self ;;
  st <- gets database ;;
  let product_ds := product_ds_in st now (Product.id self) in
  category <- Product_category ;;
  let category_ds := category_ds_in st now (Category.id category) in
  ret (firstn 1 (sorted Discount.percentage true (product_ds ++ category_ds))).
End QuerysetOrder.

(** The dict [{'avg_rating': ..., 'num_reviews': ...}]. *)
Record Overview := mkOverview {
  avg_rating : Number;
  num_reviews : Z }.

(** [product.reviews.all()] ([related_name='reviews']). *)
Definition Product_reviews (st : Store) (product_id : Pk) : list Review.t :=
  filter (fun r => Review.product r =? product_id) (reviews st).

(** [product_overview], attached as the property [Product.overview]:
<<
    reviews = self.reviews.all()
    avg_rating = reviews.aggregate(models.Avg('rating'))['rating__avg']
    num_reviews = reviews.count()
    return {'avg_rating': avg_rating or 0, 'num_reviews': num_reviews}
>> *)
Definition product_overview : M (Bound Product.t) Overview :=
  self <- get_self ;;
  st <- gets database ;;
  let reviews := Product_reviews st (Product.id self) in
  let avg_rating := Avg (map Review.rating reviews) in
  let num_reviews := Z.of_nat (List.length reviews) in
  ret (mkOverview (or_0 avg_rating) num_reviews).

(** ** Constraints the models declare *)

Inductive OnDelete : Type := CASCADE | SET_NULL.

(** [Category.parent = ForeignKey('self', on_delete=models.SET_NULL, null=True, ...)] *)
Definition Category_parent_on_delete : OnDelete := SET_NULL.

(** [ProductLike.Meta.unique_together = ('user', 'product')] *)
Definition ProductLike_unique_together (r : ProductLike.t) : Pk * Pk :=
  (ProductLike.user r, ProductLike.product r).

(** [CartItem.Meta.unique_together = ('cart', 'product')] *)
Definition CartItem_unique_together (r : CartItem.t) : Pk * Pk :=
  (CartItem.cart r, CartItem.product r).

Definition pair_eqb (a b : Pk * Pk) : bool :=
  (fst a =? fst b) && (snd a =? snd b).

(** The unique constraints of each model: do two rows hold the same value in
    a column (or column pair) declared unique?  [Customer.user] and
    [Cart.customer] are one-to-one, [DiscountCode.code] and [Product.slug]
    are [unique=True]; [Category], [Discount] and [Review] declare none. *)
Definition Customer_clash (a b : Customer.t) : bool :=
  Customer.user a =? Customer.user b.
Definition Category_clash (a b : Category.t) : bool := false.
Definition Discount_clash (a b : Discount.t) : bool := false.
Definition DiscountCode_clash (a b : DiscountCode.t) : bool :=
  String.eqb (DiscountCode.code a) (DiscountCode.code b).
Definition Product_clash (a b : Product.t) : bool :=
  String.eqb (Product.slug a) (Product.slug b).
Definition Review_clash (a b : Review.t) : bool := false.
Definition ProductLike_clash (a b : ProductLike.t) : bool :=
  pair_eqb (ProductLike_unique_together a) (ProductLike_unique_together b).
Definition Cart_clash (a b : Cart.t) : bool :=
  Cart.customer a =? Cart.customer b.
Definition CartItem_clash (a b : CartItem.t) : bool :=
  pair_eqb (CartItem_unique_together a) (CartItem_unique_together b).

(** ** The storage layer *)

(** The models only declare their tables and constraints; saving and deleting
    rows is the work of the ORM and the database, which are not part of the
    repository's sources.  This part models them from the spec ("storage layer
    enforces structurally: cascade/null-on-delete rules, uniqueness constraint
    violations") and from the declarations above. *)

Section Table.
Context {Row : Type} (pk : Row -> Pk) (clash : Row -> Row -> bool).

(** Modelled from the spec: the database's auto-incremented primary key (not
    part of the repository's sources); the next value is past every key in
    use. *)
Definition next_pk (table : list Row) : Pk :=
  fold_right (fun r acc => Z.max (pk r + 1) acc) 1 table.

(** Modelled from the spec: is there a row with primary key [k]?  (Part of the
    database's save, not part of the repository's sources.) *)
Definition has_pk (k : Pk) (table : list Row) : bool :=
  existsb (fun r => pk r =? k) table.

(** Modelled from the spec: the database's check of unique constraints (not
    part of the repository's sources): would [row] repeat, in a column
    declared unique, the value of another row of the table? *)
Definition violates (row : Row) (table : list Row) : bool :=
  existsb (fun r => negb (pk r =? pk row) && clash r row) table.

(** Modelled from the spec: the write of a save (the ORM's, not part of the
    repository's sources): UPDATE the row with [row]'s primary key, or INSERT
    [row] when there is none. *)
Definition upsert (row : Row) (table : list Row) : list Row :=
  if has_pk (pk row) table
  then map (fun r => if pk r =? pk row then row else r) table
  else table ++ [row].
End Table.

(** [k in ks] *)
Definition mem (k : Pk) (ks : list Pk) : bool := existsb (Z.eqb k) ks.

(** Modelled from the spec: the cascade of a delete (the ORM's, not part of
    the repository's sources): DELETE the rows whose column [fk] points into
    [ks]. *)
Definition cascade {Row} (fk : Row -> Pk) (ks : list Pk) (table : list Row) : list Row :=
  filter (fun r => negb (mem (fk r) ks)) table.

(** The store with one table replaced. *)
Definition set_customers v (st : Store) : Store :=
  mkStore v (categories st) (discounts st) (discount_products st)
    (discount_categories st) (discount_codes st) (products st) (reviews st)
    (product_likes st) (carts st) (cart_items st).
Definition set_categories v (st : Store) : Store :=
  mkStore (customers st) v (discounts st) (discount_products st)
    (discount_categories st) (discount_codes st) (products st) (reviews st)
    (product_likes st) (carts st) (cart_items st).
Definition set_discounts v (st : Store) : Store :=
  mkStore (customers st) (categories st) v (discount_products st)
    (discount_categories st) (discount_codes st) (products st) (reviews st)
    (product_likes st) (carts st) (cart_items st).
Definition set_discount_products v (st : Store) : Store :=
  mkStore (customers st) (categories st) (discounts st) v
    (discount_categories st) (discount_codes st) (products st) (reviews st)
    (product_likes st) (carts st) (cart_items st).
Definition set_discount_categories v (st : Store) : Store :=
  mkStore (customers st) (categories st) (discounts st) (discount_products st)
    v (discount_codes st) (products st) (reviews st)
    (product_likes st) (carts st) (cart_items st).
Definition set_discount_codes v (st : Store) : Store :=
  mkStore (customers st) (categories st) (discounts st) (discount_products st)
    (discount_categories st) v (products st) (reviews st)
    (product_likes st) (carts st) (cart_items st).
Definition set_products v (st : Store) : Store :=
  mkStore (customers st) (categories st) (discounts st) (discount_products st)
    (discount_categories st) (discount_codes st) v (reviews st)
    (product_likes st) (carts st) (cart_items st).
Definition set_reviews v (st : Store) : Store :=
  mkStore (customers st) (categories st) (discounts st) (discount_products st)
    (discount_categories st) (discount_codes st) (products st) v
    (product_likes st) (carts st) (cart_items st).
Definition set_product_likes v (st : Store) : Store :=
  mkStore (customers st) (categories st) (discounts st) (discount_products st)
    (discount_categories st) (discount_codes st) (products st) (reviews st)
    v (carts st) (cart_items st).
Definition set_carts v (st : Store) : Store :=
  mkStore (customers st) (categories st) (discounts st) (discount_products st)
    (discount_categories st) (discount_codes st) (products st) (reviews st)
    (product_likes st) v (cart_items st).
Definition set_cart_items v (st : Store) : Store :=
  mkStore (customers st) (categories st) (discounts st) (discount_products st)
    (discount_categories st) (discount_codes st) (products st) (reviews st)
    (product_likes st) (carts st) v.

(** Modelled from the spec: the storage layer's save of a row, which is the
    ORM's and the database's and not part of the repository's sources.  A row
    that would repeat a value declared unique is rejected with an integrity
    error and nothing is written (the spec's "uniqueness constraint
    violations"); otherwise the row replaces the one with its primary key, or
    is added.  Foreign keys are not checked for a target, so every state of a
    database that checks them is also a state here; and the row is written
    as given, an [auto_now] column is not stamped (no statement below reads
    one). *)
Definition save {Row} (table : Store -> list Row) (set : list Row -> Store -> Store)
    (pk : Row -> Pk) (clash : Row -> Row -> bool) (row : Row) : M Store unit :=
  st <- gets (fun st => st) ;;
  if violates pk clash row (table st)
  then raise IntegrityError
  else put (set (upsert pk row (table st)) st).

(** Modelled from the spec: [save()] of each model (the ORM's, not part of the
    repository's sources), with the unique constraints the model declares. *)
Definition Customer_save := save customers set_customers Customer.id Customer_clash.
Definition Category_save := save categories set_categories Category.id Category_clash.
Definition Discount_save := save discounts set_discounts Discount.id Discount_clash.
Definition DiscountCode_save :=
  save discount_codes set_discount_codes DiscountCode.id DiscountCode_clash.
Definition Product_save := save products set_products Product.id Product_clash.
Definition Review_save := save reviews set_reviews Review.id Review_clash.
Definition ProductLike_save :=
  save product_likes set_product_likes ProductLike.id ProductLike_clash.
Definition Cart_save := save carts set_carts Cart.id Cart_clash.
Definition CartItem_save := save cart_items set_cart_items CartItem.id CartItem_clash.

(** Modelled from the spec: creating a ProductLike ([ProductLike.objects.create(user=...,
    product=...)], the ORM's and not part of the repository's sources): a new
    row with the next primary key and [created_at] set to now
    ([auto_now_add=True]) is saved; a second like of the same (user, product)
    pair is rejected. *)
Definition ProductLike_create (user product : Pk) : M Store ProductLike.t :=
  now <- timezone_now ;;
  st <- gets (fun st => st) ;;
  let row := ProductLike.mk (next_pk ProductLike.id (product_likes st)) user product now in
  ProductLike_save row ;;;
  ret row.

(** Modelled from the spec: creating a CartItem ([CartItem.objects.create(cart=...,
    product=..., quantity=...)], the ORM's and not part of the repository's
    sources): a new row with the next primary key and [added_at] set to now
    ([auto_now_add=True]) is saved; a second item of the same (cart, product)
    pair is rejected. *)
Definition CartItem_create (cart product : Pk) (quantity : Z) : M Store CartItem.t :=
  now <- timezone_now ;;
  st <- gets (fun st => st) ;;
  let row := CartItem.mk (next_pk CartItem.id (cart_items st)) cart product quantity now in
  CartItem_save row ;;;
  ret row.

(** The category with its [parent] column set to [p]. *)
Definition Category_set_parent (p : option Pk) (c : Category.t) : Category.t :=
  Category.mk (Category.id c) (Category.name c) p
    (Category.description c) (Category.created_at c).

(** Does a nullable foreign key point to one of [ks]? *)
Definition points_into (ks : list Pk) (fk : option Pk) : bool :=
  match fk with
  | Some k => mem k ks
  | None => false
  end.

(** Modelled from the spec: the ORM's collection of rows to delete (not part
    of the repository's sources), for a foreign key to the same table: the
    categories a cascading delete of [ks] would reach through [parent]. *)
Fixpoint collect_categories (fuel : nat) (ks : list Pk) (table : list Category.t)
  : list Pk :=
  match fuel with
  | O => ks
  | S fuel' =>
      match filter (fun c => points_into ks (Category.parent c)
                             && negb (mem (Category.id c) ks)) table with
      | [] => ks
      | more => collect_categories fuel' (ks ++ map Category.id more) table
      end
  end.

(** Modelled from the spec: deleting products [ks] (the ORM's delete, not
    part of the repository's sources): "Product/Customer deletion cascades to
    dependent Reviews/OrderItems/etc."; the rows of reviews, likes and cart
    items that point to the products go with them, and so do their links to
    discounts. *)
Definition delete_products (ks : list Pk) (st : Store) : Store :=
  set_products (cascade Product.id ks (products st))
    (set_reviews (cascade Review.product ks (reviews st))
      (set_product_likes (cascade ProductLike.product ks (product_likes st))
        (set_cart_items (cascade CartItem.product ks (cart_items st))
          (set_discount_products (cascade snd ks (discount_products st)) st)))).

(** Modelled from the spec: deleting carts [ks] (the ORM's delete, not part of
    the repository's sources): [CartItem.cart] cascades, the items go with
    their cart. *)
Definition delete_carts (ks : list Pk) (st : Store) : Store :=
  set_carts (cascade Cart.id ks (carts st))
    (set_cart_items (cascade CartItem.cart ks (cart_items st)) st).

(** Modelled from the spec: deleting a customer (the ORM's delete, not part of
    the repository's sources): the customer's reviews, likes and cart go with
    it, and the cart's items with the cart. *)
Definition Customer_delete (k : Pk) : M Store unit :=
  modify (fun st =>
    let cs := map Cart.id (filter (fun c => Cart.customer c =? k) (carts st)) in
    set_customers (cascade Customer.id [k] (customers st))
      (set_reviews (cascade Review.user [k] (reviews st))
        (set_product_likes (cascade ProductLike.user [k] (product_likes st))
          (delete_carts cs st)))).

(** Modelled from the spec: deleting a category (the ORM's delete, not part of
    the repository's sources), by the rule declared for each foreign key:
    "Category parent deletion nulls the child's parent rather than cascading"
    ([Category_parent_on_delete]), and a product is "cascade-delete with
    category".  First the rows to delete are collected, then the parents that
    point to them are set to null, then the rows are deleted. *)
Definition Category_delete (k : Pk) : M Store unit :=
  modify (fun st =>
    let doomed :=
      match Category_parent_on_delete with
      | CASCADE => collect_categories (List.length (categories st)) [k] (categories st)
      | SET_NULL => [k]
      end in
    let updated :=
      match Category_parent_on_delete with
      | CASCADE => categories st
      | SET_NULL =>
          map (fun c => if points_into doomed (Category.parent c)
                        then Category_set_parent None c else c) (categories st)
      end in
    let ps := map Product.id
                (filter (fun p => mem (Product.category p) doomed) (products st)) in
    set_categories (cascade Category.id doomed updated)
      (set_discount_categories (cascade snd doomed (discount_categories st))
        (delete_products ps st))).

(** Modelled from the spec: [product.delete()] and [cart.delete()] (the ORM's,
    not part of the repository's sources). *)
Definition Product_delete (k : Pk) : M Store unit := modify (delete_products [k]).

Definition Cart_delete (k : Pk) : M Store unit := modify (delete_carts [k]).

(** Modelled from the spec: deleting a discount (the ORM's delete, not part of
    the repository's sources): [DiscountCode.discount] cascades, and the links
    of the discount to products and categories go with it. *)
Definition Discount_delete (k : Pk) : M Store unit :=
  modify (fun st =>
    set_discounts (cascade Discount.id [k] (discounts st))
      (set_discount_codes (cascade DiscountCode.discount [k] (discount_codes st))
        (set_discount_products (cascade fst [k] (discount_products st))
          (set_discount_categories (cascade fst [k] (discount_categories st)) st)))).

(** Modelled from the spec: deleting a row that nothing points to (the ORM's
    delete, not part of the repository's sources). *)
Definition DiscountCode_delete (k : Pk) : M Store unit :=
  modify (fun st => set_discount_codes (cascade DiscountCode.id [k] (discount_codes st)) st).

Definition Review_delete (k : Pk) : M Store unit :=
  modify (fun st => set_reviews (cascade Review.id [k] (reviews st)) st).

Definition ProductLike_delete (k : Pk) : M Store unit :=
  modify (fun st => set_product_likes (cascade ProductLike.id [k] (product_likes st)) st).

Definition CartItem_delete (k : Pk) : M Store unit :=
  modify (fun st => set_cart_items (cascade CartItem.id [k] (cart_items st)) st).

(** Modelled from the spec: [discount.products.add(product)] and
    [.remove(product)], and the same for [discount.categories] (the ORM's, not
    part of the repository's sources): a link is stored once. *)
Definition add_link (l : Pk * Pk) (links : list (Pk * Pk)) : list (Pk * Pk) :=
  if existsb (pair_eqb l) links then links else links ++ [l].

Definition remove_link (l : Pk * Pk) (links : list (Pk * Pk)) : list (Pk * Pk) :=
  filter (fun l' => negb (pair_eqb l l')) links.

(** Modelled from the spec: [cart.items.add(product)] and
    [cart.items.remove(product)] on [Cart.items = ManyToManyField(Product,
    through="CartItem")] (the ORM's, not part of the repository's sources): a
    product already in the cart is not added again; a new item has the
    default quantity 1. *)
Definition Cart_items_add (cart product : Pk) : M Store unit :=
  st <- gets (fun st => st) ;;
  if existsb (fun r => pair_eqb (CartItem_unique_together r) (cart, product))
       (cart_items st)
  then ret tt
  else CartItem_create cart product 1 ;;; ret tt.

Definition Cart_items_remove (cart product : Pk) : M Store unit :=
  modify (fun st =>
    set_cart_items
      (filter (fun r => negb (pair_eqb (CartItem_unique_together r) (cart, product)))
         (cart_items st)) st).

(** Modelled from the spec: what a client of the models can ask of the store
    (the ORM's interface, not part of the repository's sources): "all entities
    are created on user or admin action and persist until explicitly
    deleted". *)
Inductive Request : Type :=
| SaveCustomer (r : Customer.t)
| SaveCategory (r : Category.t)
| SaveDiscount (r : Discount.t)
| SaveDiscountCode (r : DiscountCode.t)
| SaveProduct (r : Product.t)
| SaveReview (r : Review.t)
| SaveProductLike (r : ProductLike.t)
| SaveCart (r : Cart.t)
| SaveCartItem (r : CartItem.t)
| CreateProductLike (user product : Pk)
| CreateCartItem (cart product : Pk) (quantity : Z)
| AddCartItems (cart product : Pk)
| RemoveCartItems (cart product : Pk)
| AddDiscountProduct (discount product : Pk)
| RemoveDiscountProduct (discount product : Pk)
| AddDiscountCategory (discount category : Pk)
| RemoveDiscountCategory (discount category : Pk)
| DeleteCustomer (k : Pk)
| DeleteCategory (k : Pk)
| DeleteDiscount (k : Pk)
| DeleteDiscountCode (k : Pk)
| DeleteProduct (k : Pk)
| DeleteReview (k : Pk)
| DeleteProductLike (k : Pk)
| DeleteCart (k : Pk)
| DeleteCartItem (k : Pk).

(** Modelled from the spec: how the store serves a request (the ORM and the
    database, not part of the repository's sources). *)
Definition perform (rq : Request) : M Store unit :=
  match rq with
  | SaveCustomer r => Customer_save r
  | SaveCategory r => Category_save r
  | SaveDiscount r => Discount_save r
  | SaveDiscountCode r => DiscountCode_save r
  | SaveProduct r => Product_save r
  | SaveReview r => Review_save r
  | SaveProductLike r => ProductLike_save r
  | SaveCart r => Cart_save r
  | SaveCartItem r => CartItem_save r
  | CreateProductLike u p => ProductLike_create u p ;;; ret tt
  | CreateCartItem c p q => CartItem_create c p q ;;; ret tt
  | AddCartItems c p => Cart_items_add c p
  | RemoveCartItems c p => Cart_items_remove c p
  | AddDiscountProduct d p =>
      modify (fun st => set_discount_products (add_link (d, p) (discount_products st)) st)
  | RemoveDiscountProduct d p =>
      modify (fun st => set_discount_products (remove_link (d, p) (discount_products st)) st)
  | AddDiscountCategory d c =>
      modify (fun st => set_discount_categories (add_link (d, c) (discount_categories st)) st)
  | RemoveDiscountCategory d c =>
      modify (fun st =>
        set_discount_categories (remove_link (d, c) (discount_categories st)) st)
  | DeleteCustomer k => Customer_delete k
  | DeleteCategory k => Category_delete k
  | DeleteDiscount k => Discount_delete k
  | DeleteDiscountCode k => DiscountCode_delete k
  | DeleteProduct k => Product_delete k
  | DeleteReview k => Review_delete k
  | DeleteProductLike k => ProductLike_delete k
  | DeleteCart k => Cart_delete k
  | DeleteCartItem k => CartItem_delete k
  end.

(** Modelled from the spec: the states of the store (its clients are not part
    of the repository's sources): the empty database, and what a request made
    at some instant leaves of a state (a rejected request leaves it as it
    was). *)
Inductive reachable : Store -> Prop :=
| reachable_empty : reachable empty_store
| reachable_step : forall now st rq,
    reachable st -> reachable (exec (perform rq) now st).

(** No two rows of the table agree on [key]. *)
Definition unique_rows {Row K} (key : Row -> K) (table : list Row) : Prop :=
  NoDup (map key table).

(** In the tables of likes and of cart items, primary keys and the pairs
    declared unique together are each held by one row. *)
Definition store_unique (st : Store) : Prop :=
  unique_rows ProductLike.id (product_likes st)
  /\ unique_rows ProductLike_unique_together (product_likes st)
  /\ unique_rows CartItem.id (cart_items st)
  /\ unique_rows CartItem_unique_together (cart_items st).

(** ** Sample data *)

(** A 10% discount whose window is [100, 200]. *)
Definition summer_sale : Discount.t :=
  Discount.mk 1 "summer" 1000 None 100 200.

(** A code for [summer_sale] limited to five uses, valid over [0, 1000]. *)
Definition welcome5 (used_count : Z) : DiscountCode.t :=
  DiscountCode.mk 1 "WELCOME5" 1 (Some 5) used_count 0 1000.

(** A mug in category 1, and a store with three reviews of it (5, 3 and 4
    stars) among a review of another product. *)
Definition mug : Product.t :=
  Product.mk 1 "Mug" "mug" "" 1 Product.product 1250 10 None false 0 0 0.

Definition reviewed_store : Store :=
  set_reviews [ Review.mk 1 1 1 5 "great" 10; Review.mk 2 2 1 1 "broke" 11;
                Review.mk 3 1 2 3 "" 12; Review.mk 4 1 3 4 "fine" 13 ] empty_store.

(** The mug's category, a 15% discount on the category, and a store in which
    the 10% [summer_sale] is attached to the mug and the 15% [autumn_sale] to
    its category. *)
Definition kitchen : Category.t := Category.mk 1 "Kitchen" None "" 0.

Definition autumn_sale : Discount.t :=
  Discount.mk 2 "autumn" 1500 None 100 300.

Definition discount_store : Store :=
  mkStore [] [kitchen] [summer_sale; autumn_sale] [(1, 1)] [(2, 1)] [] [mug] [] [] [] [].

(** A third 15% discount, and a store in which the 10% [summer_sale] is
    attached to the mug and the two 15% discounts [autumn_sale] and
    [winter_sale] to its category. *)
Definition winter_sale : Discount.t :=
  Discount.mk 4 "winter" 1500 None 0 400.

Definition category_ties_store : Store :=
  mkStore [] [kitchen] [summer_sale; autumn_sale; winter_sale] [(1, 1)]
    [(2, 1); (4, 1)] [] [mug] [] [] [] [].

(** A second 15% discount, attached to the mug itself; the category's
    [autumn_sale] comes first in the table. *)
Definition spring_sale : Discount.t :=
  Discount.mk 3 "spring" 1500 None 0 500.

Definition tie_store : Store :=
  mkStore [] [kitchen] [autumn_sale; spring_sale] [(3, 1)] [(2, 1)] [] [mug] [] [] [] [].

(** The store after customer 7 liked product 1 at instant 10, and the store
    after product 1 was put into cart 3 (twice over) at instant 10. *)
Definition liked_store : Store :=
  exec (perform (CreateProductLike 7 1)) 10 empty_store.

Definition cart_store : Store :=
  exec (perform (CreateCartItem 3 1 2)) 10 empty_store.

(** Two subcategories of [kitchen] and a category of its own. *)
Definition mugs : Category.t := Category.mk 2 "Mugs" (Some 1) "cups and mugs" 5.
Definition plates : Category.t := Category.mk 3 "Plates" (Some 1) "" 6.
Definition garden : Category.t := Category.mk 4 "Garden" None "" 7.

Definition category_store : Store :=
  set_categories [kitchen; mugs; plates; garden] empty_store.


(** * More of the models *)

(** ** Category.__str__ *)

(** [Category.__str__]:
<<
    return self.name if not self.parent else f"{self.parent} > {self.name}"
>>
    [self.parent] is [None] for a null key, else the row the key points to
    ([DoesNotExist] when there is none); a model instance is truthy, and
    formatting the parent calls its [__str__] in turn.  [depth] is the number
    of nested calls the interpreter still allows, and [None] the
    [RecursionError] it raises beyond them. *)
Fixpoint Category_str (depth : nat) (st : Store) (self : Category.t)
  : option (Exn + string) :=
  match depth with
  | O => None
  | S depth' =>
      match Category.parent self with
      | None => Some (inr (Category.name self))
      | Some k =>
          match find (fun c => Category.id c =? k) (categories st) with
          | None => Some (inl DoesNotExist)
          | Some parent =>
              match Category_str depth' st parent with
              | Some (inr s) => Some (inr (s ++ " > " ++ Category.name self)%string)
              | Some (inl e) => Some (inl e)
              | None => None
              end
          end
      end
  end.

(** The categories above [c], nearest first, as the foreign keys lead to
    them, up to one without a parent. *)
Fixpoint ancestry (st : Store) (c : Category.t) (above : list Category.t) : Prop :=
  match above with
  | [] => Category.parent c = None
  | p :: above' =>
      (exists k, Category.parent c = Some k
                 /\ find (fun c' => Category.id c' =? k) (categories st) = Some p)
      /\ ancestry st p above'
  end.

(** ** Orders and deliveries *)

Module Order.
Record t := mk {
  id : Pk;
  customer : Pk;             (* ForeignKey(Customer, CASCADE) *)
  delivery : option Pk;      (* OneToOneField('Delivery', SET_NULL, null=True) *)
  created_at : DateTime;
  updated_at : DateTime;
  status : string;
  total_price : Decimal }.
End Order.

Module OrderItem.
Record t := mk {
  id : Pk;
  order : Pk;                (* ForeignKey(Order, CASCADE) *)
  product : Pk;              (* ForeignKey(Product, CASCADE) *)
  quantity : Z;
  price : Decimal }.
End OrderItem.

Module Payment.
Record t := mk {
  id : Pk;
  order : Pk;                (* OneToOneField(Order, CASCADE) *)
  payment_method : string;
  amount : Decimal;
  paid_at : DateTime;
  status : string }.
End Payment.

Module Delivery.
Record t := mk {
  id : Pk;
  delivery_method : string;
  carrier : option string;
  tracking_number : option string;
  delivery_status : string;
  shipping_address : string;
  estimated_delivery_date : option Z;
  delivered_at : option DateTime;
  shipping_cost : Decimal;
  created_at : DateTime }.
End Delivery.

(** The tables of orders, beside the catalogue's. *)
Record Sales := mkSales {
  catalog : Store;
  orders : list Order.t;
  order_items : list OrderItem.t;
  payments : list Payment.t;
  deliveries : list Delivery.t }.

(** [str(n)] of an integer, as an f-string formats it. *)
Definition str_int (n : Z) : string := NilZero.string_of_int (Z.to_int n).

(** [delivery.order]: the reverse side of [Order.delivery]
    ([related_name='order']); the descriptor raises when no order points to
    the delivery. *)
Definition Delivery_order : M (Delivery.t * Sales) Order.t :=
  self <- gets fst ;;
  db <- gets snd ;;
  match find (fun o => match Order.delivery o with
                       | Some k => k =? Delivery.id self
                       | None => false
                       end) (orders db) with
  | Some o => ret o
  | None => raise DoesNotExist
  end.

(** [Delivery.__str__]:
<<
    return f"Delivery for Order #{self.order.id} - {self.delivery_status}"
>> *)
Definition Delivery_str : M (Delivery.t * Sales) string :=
  self <- gets fst ;;
  order <- Delivery_order ;;
  ret ("Delivery for Order #" ++ str_int (Order.id order) ++ " - "
       ++ Delivery.delivery_status self)%string.

(** Modelled from the spec: deleting an order (the ORM's delete, not part of
    the repository's sources), by the rules the foreign keys declare:
    [OrderItem.order] and [Payment.order] cascade; nothing leads from an
    order to the deletion of its delivery. *)
Definition Order_delete (k : Pk) : M Sales unit :=
  modify (fun db =>
    mkSales (catalog db)
      (cascade Order.id [k] (orders db))
      (cascade OrderItem.order [k] (order_items db))
      (cascade Payment.order [k] (payments db))
      (deliveries db)).

Definition Order_set_delivery (d : option Pk) (o : Order.t) : Order.t :=
  Order.mk (Order.id o) (Order.customer o) d (Order.created_at o)
    (Order.updated_at o) (Order.status o) (Order.total_price o).

(** Modelled from the spec: deleting a delivery (the ORM's delete, not part of
    the repository's sources): [Order.delivery] is [SET_NULL], so the orders
    that point to the delivery stay, with a null delivery. *)
Definition Delivery_delete (k : Pk) : M Sales unit :=
  modify (fun db =>
    mkSales (catalog db)
      (map (fun o => if points_into [k] (Order.delivery o)
                     then Order_set_delivery None o else o) (orders db))
      (order_items db)
      (payments db)
      (cascade Delivery.id [k] (deliveries db))).

(** ** Columns declared unique *)

(** In the tables of customers, discount codes, products and carts, primary
    keys and the columns declared unique ([Customer.user] and [Cart.customer]
    one-to-one, [DiscountCode.code] and [Product.slug] [unique=True]) are
    each held by one row. *)
Definition columns_unique (st : Store) : Prop :=
  (unique_rows Customer.id (customers st)
   /\ unique_rows Customer.user (customers st))
  /\ (unique_rows DiscountCode.id (discount_codes st)
      /\ unique_rows DiscountCode.code (discount_codes st))
  /\ (unique_rows Product.id (products st)
      /\ unique_rows Product.slug (products st))
  /\ (unique_rows Cart.id (carts st)
      /\ unique_rows Cart.customer (carts st)).

(** What a request can make of a table: nothing, the rows that pass some
    test, or the table with a row saved that violates no constraint. *)
Definition table_step {Row} (pk : Row -> Pk) (clash : Row -> Row -> bool)
    (table table' : list Row) : Prop :=
  table' = table
  \/ (exists f, table' = filter f table)
  \/ (exists row, violates pk clash row table = false /\ table' = upsert pk row table).

(** A discount entered with its window the wrong way round, and a category
    that was made its own parent. *)
Definition inverted_sale : Discount.t :=
  Discount.mk 9 "inverted" 2000 None 200 100.

Definition loop : Category.t := Category.mk 5 "Loop" (Some 5) "" 8.

(** [discount_store] with its rows stored in another order, and a mug whose
    category is not in the store. *)
Definition reordered_discount_store : Store :=
  mkStore [] [kitchen] [autumn_sale; summer_sale] [(1, 1)] [(2, 1)] [] [mug] [] [] [] [].

Definition stray_mug : Product.t :=
  Product.mk 1 "Mug" "mug" "" 99 Product.product 1250 10 None false 0 0 0.

(** Order 7 with one item, its payment and its delivery 3. *)
Definition order7 : Order.t := Order.mk 7 1 (Some 3) 0 0 "pending" 2500.

Definition delivery3 : Delivery.t :=
  Delivery.mk 3 "courier" None None "shipped" "1 Main St" None None 500 0.

Definition sales_db : Sales :=
  mkSales empty_store [order7] [OrderItem.mk 1 7 1 2 1250]
    [Payment.mk 1 7 "card" 2500 0 "completed"] [delivery3].

(** A cup in the subcategory [mugs], beside the mug in [kitchen], with a
    review and a like of each. *)
Definition cup : Product.t :=
  Product.mk 2 "Cup" "cup" "" 2 Product.product 900 4 None false 0 0 0.

Definition shelf_store : Store :=
  mkStore [] [kitchen; mugs] [] [] [] [] [mug; cup]
    [Review.mk 1 1 1 5 "" 10; Review.mk 2 2 1 4 "" 11]
    [ProductLike.mk 1 1 1 10; ProductLike.mk 2 1 2 11] [] [].

(** The store after the mug was saved, after a code was saved, and after
    customer 7 got a cart. *)
Definition mug_store : Store := exec (perform (SaveProduct mug)) 10 empty_store.

Definition code_store : Store :=
  exec (perform (SaveDiscountCode (welcome5 0))) 10 empty_store.

Definition one_cart_store : Store :=
  exec (perform (SaveCart (Cart.mk 1 7 false None 10))) 10 empty_store.

(** * Properties *)

(** ** Read-only computations *)

Section ReadOnly.
Context {S : Type}.

Lemma read_only_ret {A} (a : A) : read_only (S := S) (ret a).
Proof. intros now s. reflexivity. Qed.

Lemma read_only_raise {A} (e : Exn) : read_only (S := S) (raise (A := A) e).
Proof. intros now s. reflexivity. Qed.

Lemma read_only_timezone_now : read_only (S := S) timezone_now.
Proof. intros now s. reflexivity. Qed.

Lemma read_only_gets {A} (f : S -> A) : read_only (gets f).
Proof. intros now s. reflexivity. Qed.

Lemma read_only_bind {A B} (m : M S A) (k : A -> M S B) :
  read_only m -> (forall a, read_only (k a)) -> read_only (bind m k).
Proof.
  intros Hm Hk now s. unfold exec, bind.
  specialize (Hm now s). unfold exec in Hm.
  destruct (m now s) as [[e | a] s']; simpl in *; subst s'.
  - reflexivity.
  - apply Hk.
Qed.

Lemma read_only_if {A} (b : bool) (m1 m2 : M S A) :
  read_only m1 -> read_only m2 -> read_only (if b then m1 else m2).
Proof. destruct b; auto. Qed.
End ReadOnly.

Lemma read_only_get_self {Self} : read_only (@get_self Self).
Proof. apply read_only_gets. Qed.

Create HintDb orm.
#[export] Hint Resolve read_only_ret read_only_raise read_only_timezone_now
  read_only_gets read_only_get_self read_only_if : orm.

Ltac read_only_tac :=
  repeat (first [ apply read_only_bind; [ | intro ] | solve [ auto with orm ] ]).

(** What the two window methods compute, as plain booleans. *)
Lemma Discount_is_active_run now d st :
  Discount_is_active now (bind_to d st) =
  (inr ((Discount.start_time d <=? now) && (now <=? Discount.end_time d)), bind_to d st).
Proof. reflexivity. Qed.

Lemma DiscountCode_is_valid_run now c st :
  DiscountCode_is_valid now (bind_to c st) =
  (inr ((DiscountCode.valid_from c <=? now) && (now <=? DiscountCode.valid_to c)
        && match DiscountCode.usage_limit c with
           | None => true
           | Some limit => DiscountCode.used_count c <? limit
           end),
   bind_to c st).
Proof.
  unfold DiscountCode_is_valid, bind, timezone_now, get_self, gets. simpl.
  destruct ((DiscountCode.valid_from c <=? now) && (now <=? DiscountCode.valid_to c));
    simpl; [ | reflexivity ].
  destruct (DiscountCode.usage_limit c) as [limit | ]; [ | reflexivity ].
  destruct (DiscountCode.used_count c <? limit); reflexivity.
Qed.

Lemma DiscountCode_is_valid_read_only : read_only DiscountCode_is_valid.
Proof.
  unfold DiscountCode_is_valid. read_only_tac.
Qed.

(** ** Discount.is_active *)

(** C3: [is_active] answers True exactly when [start_time <= now <= end_time],
    and False otherwise; both ends of the window are inside it: at
    [now = start_time] and at [now = end_time] the discount (whose window
    runs from its start to its end, [start_time <= end_time]) is active. *)
Theorem Discount_is_active_iff_in_window (now : DateTime) (d : Discount.t) (st : Store) :
  (eval Discount_is_active now (bind_to d st) = inr true
   <-> Discount.start_time d <= now <= Discount.end_time d)
  /\ (eval Discount_is_active now (bind_to d st) = inr false
      <-> ~ (Discount.start_time d <= now <= Discount.end_time d))
  /\ (Discount.start_time d <= Discount.end_time d ->
      eval Discount_is_active (Discount.start_time d) (bind_to d st) = inr true
      /\ eval Discount_is_active (Discount.end_time d) (bind_to d st) = inr true).
Proof.
  unfold eval. rewrite !Discount_is_active_run. simpl.
  split; [ | split ].
  - split; intros H.
    + injection H as H. apply andb_true_iff in H. lia.
    + f_equal. apply andb_true_iff. lia.
  - split; intros H.
    + intros Hin. injection H as H. apply andb_false_iff in H. lia.
    + f_equal. apply andb_false_iff.
      destruct (Z.leb_spec (Discount.start_time d) now); [ right | left; reflexivity ].
      apply Z.leb_gt. lia.
  - intros H. split; f_equal; apply andb_true_iff; lia.
Qed.

Lemma Discount_is_active_iff_in_window_witness :
  eval Discount_is_active 100 (bind_to summer_sale empty_store) = inr true
  /\ eval Discount_is_active 200 (bind_to summer_sale empty_store) = inr true
  /\ eval Discount_is_active 99 (bind_to summer_sale empty_store) = inr false
  /\ eval Discount_is_active 201 (bind_to summer_sale empty_store) = inr false.
Proof.
  destruct (Discount_is_active_iff_in_window 100 summer_sale empty_store)
    as (_ & _ & Hends).
  destruct Hends as [Hs He]; [ simpl; lia | ].
  split; [ exact Hs | split; [ exact He | split ] ].
  - apply (Discount_is_active_iff_in_window 99 summer_sale empty_store). simpl. lia.
  - apply (Discount_is_active_iff_in_window 201 summer_sale empty_store). simpl. lia.
Defined.

(** ** DiscountCode.is_valid *)

(** C2: [is_valid] answers True exactly when [valid_from <= now <= valid_to]
    and the usage limit is unset or [used_count] is below it, and False
    otherwise; with a limit of 5, a code used 5 times is not valid, and a
    code used 4 times is valid inside its window. *)
Theorem DiscountCode_is_valid_iff (now : DateTime) (c : DiscountCode.t) (st : Store) :
  (eval DiscountCode_is_valid now (bind_to c st) = inr true
   <-> DiscountCode.valid_from c <= now <= DiscountCode.valid_to c
       /\ (DiscountCode.usage_limit c = None
           \/ exists limit, DiscountCode.usage_limit c = Some limit
                            /\ DiscountCode.used_count c < limit))
  /\ (eval DiscountCode_is_valid now (bind_to c st) = inr true
      \/ eval DiscountCode_is_valid now (bind_to c st) = inr false)
  /\ (DiscountCode.usage_limit c = Some 5 ->
      (DiscountCode.used_count c = 5 ->
       eval DiscountCode_is_valid now (bind_to c st) = inr false)
      /\ (DiscountCode.used_count c = 4 ->
          DiscountCode.valid_from c <= now <= DiscountCode.valid_to c ->
          eval DiscountCode_is_valid now (bind_to c st) = inr true)).
Proof.
  unfold eval. rewrite DiscountCode_is_valid_run. simpl.
  split; [ | split ].
  - split; intros H.
    + injection H as H. apply andb_true_iff in H. destruct H as [Hw Hl].
      apply andb_true_iff in Hw. split; [ lia | ].
      destruct (DiscountCode.usage_limit c) as [limit | ]; [ right | left; reflexivity ].
      exists limit. split; [ reflexivity | lia ].
    + destruct H as [Hw Hl]. f_equal. apply andb_true_iff. split.
      * apply andb_true_iff. lia.
      * destruct Hl as [-> | [limit [-> Hlt]]]; [ reflexivity | lia ].
  - match goal with |- context [inr ?b = inr true] => destruct b end; auto.
  - intros ->. split.
    + intros ->. f_equal. apply andb_false_iff. right. reflexivity.
    + intros -> Hw. f_equal. apply andb_true_iff. split; [ | reflexivity ].
      apply andb_true_iff. lia.
Qed.

Lemma DiscountCode_is_valid_iff_witness :
  eval DiscountCode_is_valid 500 (bind_to (welcome5 5) empty_store) = inr false
  /\ eval DiscountCode_is_valid 500 (bind_to (welcome5 4) empty_store) = inr true.
Proof.
  split.
  - destruct (DiscountCode_is_valid_iff 500 (welcome5 5) empty_store) as (_ & _ & H).
    destruct (H eq_refl) as [H5 _]. exact (H5 eq_refl).
  - destruct (DiscountCode_is_valid_iff 500 (welcome5 4) empty_store) as (_ & _ & H).
    destruct (H eq_refl) as [_ H4]. apply (H4 eq_refl). simpl. lia.
Defined.

(** C6: [is_valid] is a query: after the call the instance and the database
    are what they were before it, and [used_count] in particular is not
    incremented. *)
Theorem DiscountCode_is_valid_changes_nothing
    (now : DateTime) (c : DiscountCode.t) (st : Store) :
  exec DiscountCode_is_valid now (bind_to c st) = bind_to c st
  /\ DiscountCode.used_count (instance (exec DiscountCode_is_valid now (bind_to c st)))
     = DiscountCode.used_count c
  /\ discount_codes (database (exec DiscountCode_is_valid now (bind_to c st)))
     = discount_codes st.
Proof.
  rewrite (DiscountCode_is_valid_read_only now (bind_to c st)).
  repeat split.
Qed.

(** C10: the answer of [is_valid] is determined by the code's own
    [valid_from], [valid_to], [usage_limit] and [used_count] (and the clock):
    the discount the code refers to and the rest of the database have no
    part in it.  So a code can be valid while its discount is not active. *)
Theorem DiscountCode_is_valid_ignores_discount_window :
  (forall now c1 c2 st1 st2,
      DiscountCode.valid_from c1 = DiscountCode.valid_from c2 ->
      DiscountCode.valid_to c1 = DiscountCode.valid_to c2 ->
      DiscountCode.usage_limit c1 = DiscountCode.usage_limit c2 ->
      DiscountCode.used_count c1 = DiscountCode.used_count c2 ->
      eval DiscountCode_is_valid now (bind_to c1 st1)
      = eval DiscountCode_is_valid now (bind_to c2 st2))
  /\ (exists now st c d,
        In c (discount_codes st) /\ In d (discounts st)
        /\ DiscountCode.discount c = Discount.id d
        /\ eval DiscountCode_is_valid now (bind_to c st) = inr true
        /\ eval Discount_is_active now (bind_to d st) = inr false).
Proof.
  split.
  - intros now c1 c2 st1 st2 Hf Ht Hl Hu. unfold eval.
    rewrite !DiscountCode_is_valid_run. simpl. rewrite Hf, Ht, Hl, Hu. reflexivity.
  - exists 500, (set_discounts [summer_sale] (set_discount_codes [welcome5 0] empty_store)),
      (welcome5 0), summer_sale.
    simpl. repeat split; auto.
Qed.

Lemma DiscountCode_is_valid_ignores_discount_window_witness :
  eval DiscountCode_is_valid 500 (bind_to (welcome5 0) empty_store)
  = eval DiscountCode_is_valid 500
      (bind_to (DiscountCode.mk 7 "OTHER" 9 (Some 5) 0 0 1000)
         (set_discounts [summer_sale] empty_store)).
Proof.
  destruct DiscountCode_is_valid_ignores_discount_window as [H _].
  apply H; reflexivity.
Defined.

(** ** Product.overview *)

Lemma product_overview_run now p st :
  product_overview now (bind_to p st) =
  (inr (mkOverview (or_0 (Avg (map Review.rating (Product_reviews st (Product.id p)))))
          (Z.of_nat (List.length (Product_reviews st (Product.id p))))),
   bind_to p st).
Proof. reflexivity. Qed.






(** ** sorted *)

Section SortedFacts.
Context {A : Type} (key : A -> Z) (reverse : bool).

Lemma insert_sorted_Permutation (x : A) (l : list A) :
  Permutation (x :: l) (insert_sorted key reverse x l).
Proof.
  induction l as [ | y l IH]; simpl.
  - apply Permutation_refl.
  - destruct (strictly_before key reverse y x).
    + eapply perm_trans; [ apply perm_swap | apply perm_skip, IH ].
    + apply Permutation_refl.
Qed.

(** The result holds the elements of the input, each as often. *)
Lemma sorted_Permutation (l : list A) : Permutation l (sorted key reverse l).
Proof.
  induction l as [ | x l IH]; simpl.
  - apply perm_nil.
  - eapply perm_trans; [ apply perm_skip, IH | apply insert_sorted_Permutation ].
Qed.

Lemma strictly_before_trans_neg (a b c : A) :
  strictly_before key reverse b a = false ->
  strictly_before key reverse c b = false ->
  strictly_before key reverse c a = false.
Proof.
  unfold strictly_before. destruct reverse; rewrite !Z.ltb_ge; lia.
Qed.

Lemma strictly_before_asym (a b : A) :
  strictly_before key reverse a b = true -> strictly_before key reverse b a = false.
Proof.
  unfold strictly_before. destruct reverse; rewrite Z.ltb_lt, Z.ltb_ge; lia.
Qed.

Lemma in_order_cons (x : A) (l : list A) :
  in_order key reverse (x :: l) <->
  (forall b, In b l -> strictly_before key reverse b x = false)
  /\ in_order key reverse l.
Proof.
  split.
  - intros H. split.
    + intros b Hb. apply In_nth_error in Hb. destruct Hb as [j Hj].
      apply (H 0%nat (S j) x b); [ lia | reflexivity | exact Hj ].
    + intros i j a b Hij Ha Hb. apply (H (S i) (S j) a b); [ lia | exact Ha | exact Hb ].
  - intros [Hx Hl] i j a b Hij Ha Hb.
    destruct j as [ | j]; [ lia | ]. simpl in Hb.
    destruct i as [ | i]; simpl in Ha.
    + injection Ha as <-. apply Hx. eapply nth_error_In. exact Hb.
    + apply (Hl i j a b); [ lia | exact Ha | exact Hb ].
Qed.

Lemma insert_sorted_in_order (x : A) (l : list A) :
  in_order key reverse l -> in_order key reverse (insert_sorted key reverse x l).
Proof.
  induction l as [ | y l IH]; intros Hl; simpl.
  - apply in_order_cons. split; [ intros b [] | intros i j a b _ Ha; destruct i; discriminate ].
  - apply in_order_cons in Hl. destruct Hl as [Hy Hl].
    destruct (strictly_before key reverse y x) eqn:E.
    + apply in_order_cons. split; [ | apply IH, Hl ].
      intros b Hb.
      apply (Permutation_in _ (Permutation_sym (insert_sorted_Permutation x l))) in Hb.
      destruct Hb as [<- | Hb]; [ apply strictly_before_asym, E | apply Hy, Hb ].
    + apply in_order_cons. split; [ | apply in_order_cons; split; assumption ].
      intros b [<- | Hb]; [ exact E | ].
      eapply strictly_before_trans_neg; [ exact E | apply Hy, Hb ].
Qed.

Lemma sorted_in_order (l : list A) : in_order key reverse (sorted key reverse l).
Proof.
  induction l as [ | x l IH]; simpl.
  - intros i j a b _ Ha. destruct i; discriminate.
  - apply insert_sorted_in_order, IH.
Qed.

Lemma insert_sorted_stable (k : Z) (x : A) (l : list A) :
  filter (fun a => key a =? k) (insert_sorted key reverse x l)
  = filter (fun a => key a =? k) (x :: l).
Proof.
  induction l as [ | y l IH]; [ reflexivity | ].
  simpl insert_sorted. destruct (strictly_before key reverse y x) eqn:E; [ | reflexivity ].
  assert (Hne : key y <> key x).
  { unfold strictly_before in E. destruct reverse; apply Z.ltb_lt in E; lia. }
  simpl in *. rewrite IH.
  destruct (Z.eqb_spec (key y) k), (Z.eqb_spec (key x) k); try reflexivity; lia.
Qed.

(** Stability: the elements with a given key come out in the order they went
    in. *)
Lemma sorted_stable (k : Z) (l : list A) :
  filter (fun a => key a =? k) (sorted key reverse l) = filter (fun a => key a =? k) l.
Proof.
  induction l as [ | x l IH]; [ reflexivity | ].
  simpl sorted. rewrite insert_sorted_stable. simpl. rewrite IH. reflexivity.
Qed.

(** The head of the result: the element that is strictly better than all
    before it and not worse than any after it. *)
Lemma sorted_head (l1 : list A) (x : A) (l2 : list A) :
  (forall y, In y l1 -> strictly_before key reverse x y = true) ->
  (forall y, In y l2 -> strictly_before key reverse y x = false) ->
  exists rest, sorted key reverse (l1 ++ x :: l2) = x :: rest.
Proof.
  intros H1 H2. induction l1 as [ | y l1 IH]; simpl.
  - destruct (sorted key reverse l2) as [ | z s] eqn:E; simpl.
    + exists []. reflexivity.
    + rewrite H2; [ eexists; reflexivity | ].
      apply (Permutation_in _ (Permutation_sym (sorted_Permutation l2))).
      rewrite E. left. reflexivity.
  - destruct IH as [rest IH]; [ intros z Hz; apply H1; right; exact Hz | ].
    rewrite IH. simpl. rewrite H1; [ eexists; reflexivity | left; reflexivity ].
Qed.
End SortedFacts.

(** Every list but the empty one splits at its first greatest element. *)
Lemma first_greatest_split {A} (key : A -> Z) (l : list A) :
  l <> [] ->
  exists l1 x l2, l = l1 ++ x :: l2
    /\ (forall y, In y l1 -> key y < key x)
    /\ (forall y, In y l2 -> key y <= key x).
Proof.
  induction l as [ | a l IH]; [ congruence | intros _ ].
  destruct l as [ | b l].
  - exists [], a, []. split; [ reflexivity | split; intros y [] ].
  - destruct IH as (l1 & x & l2 & E & H1 & H2); [ discriminate | ].
    destruct (Z.ltb_spec (key a) (key x)) as [Hlt | Hge].
    + exists (a :: l1), x, l2. rewrite E. split; [ reflexivity | ]. split; [ | exact H2 ].
      intros y [<- | Hy]; [ exact Hlt | apply H1, Hy ].
    + exists [], a, (b :: l). split; [ reflexivity | ]. split; [ intros y [] | ].
      intros y Hy. rewrite E in Hy. apply in_app_or in Hy.
      destruct Hy as [Hy | [<- | Hy]]; [ apply H1 in Hy | | apply H2 in Hy ]; lia.
Qed.

(** [sorted(l, key=key, reverse=True)[:1]] is the first greatest element. *)
Lemma sorted_reverse_first {A} (key : A -> Z) (l1 : list A) (x : A) (l2 : list A) :
  (forall y, In y l1 -> key y < key x) ->
  (forall y, In y l2 -> key y <= key x) ->
  firstn 1 (sorted key true (l1 ++ x :: l2)) = [x].
Proof.
  intros H1 H2.
  destruct (sorted_head key true l1 x l2) as [rest E].
  - intros y Hy. simpl. apply Z.ltb_lt, H1, Hy.
  - intros y Hy. simpl. apply Z.ltb_ge, H2, Hy.
  - rewrite E. reflexivity.
Qed.

(** ** Product.available_discount *)

Lemma linked_iff (links : list (Pk * Pk)) (a b : Pk) :
  existsb (fun l => (fst l =? a) && (snd l =? b)) links = true <-> In (a, b) links.
Proof.
  rewrite existsb_exists. split.
  - intros [[x y] [Hin H]]. simpl in H. apply andb_true_iff in H.
    destruct H as [Hx Hy]. apply Z.eqb_eq in Hx, Hy. subst. exact Hin.
  - intros Hin. exists (a, b). split; [ exact Hin | ]. simpl.
    rewrite !Z.eqb_refl. reflexivity.
Qed.

Lemma window_contains_iff (now : DateTime) (d : Discount.t) :
  window_contains now d = true
  <-> Discount.start_time d <= now <= Discount.end_time d.
Proof.
  unfold window_contains. rewrite andb_true_iff, Z.leb_le, Z.geb_le. tauto.
Qed.

Lemma In_active_Product_discounts now st k d :
  In d (filter (window_contains now) (Product_discounts st k))
  <-> In d (discounts st) /\ In (Discount.id d, k) (discount_products st)
      /\ Discount.start_time d <= now <= Discount.end_time d.
Proof.
  unfold Product_discounts.
  rewrite !filter_In, linked_iff, window_contains_iff. tauto.
Qed.

Lemma In_active_Category_discounts now st k d :
  In d (filter (window_contains now) (Category_discounts st k))
  <-> In d (discounts st) /\ In (Discount.id d, k) (discount_categories st)
      /\ Discount.start_time d <= now <= Discount.end_time d.
Proof.
  unfold Category_discounts.
  rewrite !filter_In, linked_iff, window_contains_iff. tauto.
Qed.

(** With the product's category in the store, the method returns the head of
    the sorted enumeration and raises nothing. *)
Lemma Product_available_discount_run now p st :
  (exists c, In c (categories st) /\ Category.id c = Product.category p) ->
  Product_available_discount now (bind_to p st) =
  (inr (firstn 1 (sorted Discount.percentage true
          (filter (window_contains now) (Product_discounts st (Product.id p))
           ++ filter (window_contains now)
                (Category_discounts st (Product.category p))))),
   bind_to p st).
Proof.
  intros [c [Hin Hid]].
  unfold Product_available_discount, Product_category, bind, timezone_now, get_self,
    gets, ret. simpl.
  destruct (find (fun c0 => Category.id c0 =? Product.category p) (categories st))
    as [c' | ] eqn:E.
  - apply find_some in E. destruct E as [_ E]. apply Z.eqb_eq in E.
    simpl. rewrite E. reflexivity.
  - exfalso. apply (find_none _ _ E) in Hin. apply Z.eqb_neq in Hin. contradiction.
Qed.

(** X26: without the row of the product's category the foreign key has
    nothing to fetch, and the method raises [DoesNotExist], whatever discounts
    are attached to the product. *)
Lemma Product_available_discount_raises now p st :
  (forall c, In c (categories st) -> Category.id c <> Product.category p) ->
  Product_available_discount now (bind_to p st) = (inl DoesNotExist, bind_to p st).
Proof.
  intros Hnone.
  unfold Product_available_discount, Product_category, bind, timezone_now, get_self,
    gets, ret. simpl.
  destruct (find (fun c0 => Category.id c0 =? Product.category p) (categories st))
    as [c' | ] eqn:E; [ | reflexivity ].
  apply find_some in E. destruct E as [Hin E]. apply Z.eqb_eq in E.
  exfalso. exact (Hnone c' Hin E).
Qed.

Local Abbreviation applicable st p now d :=
  (In d (discounts st)
   /\ (In (Discount.id d, Product.id p) (discount_products st)
       \/ In (Discount.id d, Product.category p) (discount_categories st))
   /\ Discount.start_time d <= now <= Discount.end_time d).

Lemma applicable_iff now p st d :
  applicable st p now d <->
  In d (filter (window_contains now) (Product_discounts st (Product.id p))
        ++ filter (window_contains now) (Category_discounts st (Product.category p))).
Proof.
  rewrite in_app_iff, In_active_Product_discounts, In_active_Category_discounts. tauto.
Qed.

(** C1: for a product whose category is in the store, [available_discount]
    returns the one discount of greatest percentage among the discounts
    attached to the product or to its category whose window contains now, and
    the empty list when there is none. *)
Theorem Product_available_discount_greatest
    (now : DateTime) (p : Product.t) (st : Store) :
  (exists c, In c (categories st) /\ Category.id c = Product.category p) ->
  (exists d,
      eval Product_available_discount now (bind_to p st) = inr [d]
      /\ applicable st p now d
      /\ forall d', applicable st p now d' ->
                    Discount.percentage d' <= Discount.percentage d)
  \/ (eval Product_available_discount now (bind_to p st) = inr []
      /\ forall d, ~ applicable st p now d).
Proof.
  intros Hc. unfold eval. rewrite (Product_available_discount_run now p st Hc). cbn [fst].
  remember (filter (window_contains now) (Product_discounts st (Product.id p))
            ++ filter (window_contains now)
                 (Category_discounts st (Product.category p))) as l eqn:El.
  destruct l as [ | a l'].
  - right. split; [ reflexivity | ].
    intros d Hd. apply applicable_iff in Hd. rewrite <- El in Hd. destruct Hd.
  - left. destruct (first_greatest_split Discount.percentage (a :: l'))
      as (l1 & x & l2 & E & H1 & H2); [ discriminate | ].
    exists x. rewrite E.
    rewrite (sorted_reverse_first Discount.percentage l1 x l2 H1 H2).
    split; [ reflexivity | ]. split.
    + apply applicable_iff. rewrite <- El, E. apply in_elt.
    + intros d' Hd'. apply applicable_iff in Hd'. rewrite <- El, E in Hd'.
      apply in_app_or in Hd'.
      destruct Hd' as [Hd' | [<- | Hd']]; [ apply H1 in Hd' | | apply H2 in Hd' ]; lia.
Qed.

Lemma Product_available_discount_greatest_witness :
  eval Product_available_discount 150 (bind_to mug discount_store) = inr [autumn_sale]
  /\ ((exists d,
         eval Product_available_discount 150 (bind_to mug discount_store) = inr [d]
         /\ applicable discount_store mug 150 d
         /\ forall d', applicable discount_store mug 150 d' ->
                       Discount.percentage d' <= Discount.percentage d)
      \/ (eval Product_available_discount 150 (bind_to mug discount_store) = inr []
          /\ forall d, ~ applicable discount_store mug 150 d)).
Proof.
  split; [ reflexivity | ].
  apply (Product_available_discount_greatest 150 mug discount_store).
  exists kitchen. split; [ left; reflexivity | reflexivity ].
Defined.

(** With both querysets in table order the method is [Product_available_discount]. *)
Lemma Product_available_discount_in_table_order :
  Product_available_discount_in (fun l => l) (fun l => l) = Product_available_discount.
Proof. reflexivity. Qed.

Local Abbreviation product_applicable st p now d :=
  (In d (discounts st)
   /\ In (Discount.id d, Product.id p) (discount_products st)
   /\ Discount.start_time d <= now <= Discount.end_time d).

Local Abbreviation category_applicable st p now d :=
  (In d (discounts st)
   /\ In (Discount.id d, Product.category p) (discount_categories st)
   /\ Discount.start_time d <= now <= Discount.end_time d).

Section QuerysetOrderFacts.
Variables product_order category_order : list Discount.t -> list Discount.t.
Hypothesis product_order_Permutation : forall l, Permutation l (product_order l).
Hypothesis category_order_Permutation : forall l, Permutation l (category_order l).

Lemma In_product_ds_in now st k d :
  In d (product_ds_in product_order st now k)
  <-> In d (discounts st) /\ In (Discount.id d, k) (discount_products st)
      /\ Discount.start_time d <= now <= Discount.end_time d.
Proof.
  rewrite <- In_active_Product_discounts. unfold product_ds_in. split.
  - apply Permutation_in, Permutation_sym, product_order_Permutation.
  - apply Permutation_in, product_order_Permutation.
Qed.

Lemma In_category_ds_in now st k d :
  In d (category_ds_in category_order st now k)
  <-> In d (discounts st) /\ In (Discount.id d, k) (discount_categories st)
      /\ Discount.start_time d <= now <= Discount.end_time d.
Proof.
  rewrite <- In_active_Category_discounts. unfold category_ds_in. split.
  - apply Permutation_in, Permutation_sym, category_order_Permutation.
  - apply Permutation_in, category_order_Permutation.
Qed.

Lemma Product_available_discount_in_run now p st :
  (exists c, In c (categories st) /\ Category.id c = Product.category p) ->
  Product_available_discount_in product_order category_order now (bind_to p st) =
  (inr (firstn 1 (sorted Discount.percentage true
          (product_ds_in product_order st now (Product.id p)
           ++ category_ds_in category_order st now (Product.category p)))),
   bind_to p st).
Proof.
  intros [c [Hin Hid]].
  unfold Product_available_discount_in, Product_category, bind, timezone_now, get_self,
    gets, ret. simpl.
  destruct (find (fun c0 => Category.id c0 =? Product.category p) (categories st))
    as [c' | ] eqn:E.
  - apply find_some in E. destruct E as [_ E]. apply Z.eqb_eq in E.
    simpl. rewrite E. reflexivity.
  - exfalso. apply (find_none _ _ E) in Hin. apply Z.eqb_neq in Hin. contradiction.
Qed.
End QuerysetOrderFacts.

(** C5: whatever the order in which the database hands back the rows of the
    two querysets (the code asks for none), the discount returned is the
    first of greatest percentage in the enumeration that lists the product's
    active discounts in their order and then its category's in theirs:
    whatever comes before it has a strictly smaller percentage.  The two
    lists hold the active discounts linked to the product and to its
    category.  So among discounts that share the greatest percentage one
    attached to the product is returned before one attached to the category,
    and between two of the same queryset the first the database hands
    back. *)
Theorem Product_available_discount_tie_goes_to_first
    (product_order category_order : list Discount.t -> list Discount.t)
    (now : DateTime) (p : Product.t) (st : Store) :
  (forall l, Permutation l (product_order l)) ->
  (forall l, Permutation l (category_order l)) ->
  (exists c, In c (categories st) /\ Category.id c = Product.category p) ->
  (forall d, In d (product_ds_in product_order st now (Product.id p))
             <-> product_applicable st p now d)
  /\ (forall d, In d (category_ds_in category_order st now (Product.category p))
                <-> category_applicable st p now d)
  /\ (forall before d after,
        product_ds_in product_order st now (Product.id p)
        ++ category_ds_in category_order st now (Product.category p)
        = before ++ d :: after ->
        (forall d', In d' before -> Discount.percentage d' < Discount.percentage d) ->
        (forall d', In d' after -> Discount.percentage d' <= Discount.percentage d) ->
        eval (Product_available_discount_in product_order category_order) now
          (bind_to p st) = inr [d])
  /\ (forall d,
        product_applicable st p now d ->
        (forall d', applicable st p now d' ->
                    Discount.percentage d' <= Discount.percentage d) ->
        exists d0,
          eval (Product_available_discount_in product_order category_order) now
            (bind_to p st) = inr [d0]
          /\ product_applicable st p now d0
          /\ Discount.percentage d0 = Discount.percentage d)
  /\ (forall d,
        category_applicable st p now d ->
        (forall d', applicable st p now d' ->
                    Discount.percentage d' <= Discount.percentage d) ->
        (forall d', product_applicable st p now d' ->
                    Discount.percentage d' < Discount.percentage d) ->
        exists d0,
          eval (Product_available_discount_in product_order category_order) now
            (bind_to p st) = inr [d0]
          /\ category_applicable st p now d0
          /\ Discount.percentage d0 = Discount.percentage d).
Proof.
  intros Hpo Hco Hc.
  pose proof (fun d => In_product_ds_in product_order Hpo now st (Product.id p) d) as Hpds.
  pose proof (fun d => In_category_ds_in category_order Hco now st (Product.category p) d)
    as Hcds.
  unfold eval.
  rewrite (Product_available_discount_in_run product_order category_order now p st Hc).
  cbn [fst].
  remember (product_ds_in product_order st now (Product.id p)) as pds eqn:Ep.
  remember (category_ds_in category_order st now (Product.category p)) as cds eqn:Ec.
  assert (Hall : forall d', In d' (pds ++ cds) <-> applicable st p now d').
  { intros d'. rewrite in_app_iff, Hpds, Hcds. tauto. }
  split; [ exact Hpds | ]. split; [ exact Hcds | ]. split; [ | split ].
  - intros before d after E H1 H2. rewrite E.
    rewrite (sorted_reverse_first Discount.percentage before d after H1 H2). reflexivity.
  - intros d Hd Hmax. apply Hpds in Hd.
    destruct (first_greatest_split Discount.percentage (pds ++ cds))
      as (l1 & x & l2 & E & H1 & H2).
    { destruct pds; [ destruct Hd | discriminate ]. }
    exists x. rewrite E.
    rewrite (sorted_reverse_first Discount.percentage l1 x l2 H1 H2).
    split; [ reflexivity | ].
    assert (Hx : Discount.percentage x <= Discount.percentage d).
    { apply Hmax. apply Hall. rewrite E. apply in_elt. }
    apply app_eq_app in E. destruct E as [l' [[E1 E2] | [E1 E2]]].
    + destruct l' as [ | y l'].
      * rewrite app_nil_r in E1. subst l1. apply H1 in Hd. lia.
      * simpl in E2. injection E2 as <- E2. split.
        -- apply Hpds. rewrite E1. apply in_elt.
        -- assert (Hd' : In d (l1 ++ x :: l')) by (rewrite <- E1; exact Hd).
           apply in_app_or in Hd'.
           destruct Hd' as [Hd' | [<- | Hd']]; [ apply H1 in Hd'; lia | reflexivity | ].
           assert (In d l2) by (rewrite E2; apply in_or_app; left; exact Hd').
           apply H2 in H. lia.
    + assert (Hd' : In d l1) by (rewrite E1; apply in_or_app; left; exact Hd).
      apply H1 in Hd'. lia.
  - intros d Hd Hmax Hless. apply Hcds in Hd.
    destruct (first_greatest_split Discount.percentage (pds ++ cds))
      as (l1 & x & l2 & E & H1 & H2).
    { intros E. apply app_eq_nil in E. destruct E as [_ E]. rewrite E in Hd. destruct Hd. }
    exists x. rewrite E.
    rewrite (sorted_reverse_first Discount.percentage l1 x l2 H1 H2).
    split; [ reflexivity | ].
    assert (Hxin : In x (pds ++ cds)) by (rewrite E; apply in_elt).
    assert (Hx : Discount.percentage x <= Discount.percentage d).
    { apply Hmax. apply Hall. exact Hxin. }
    assert (Hdx : Discount.percentage d <= Discount.percentage x).
    { assert (Hd' : In d (l1 ++ x :: l2)) by (rewrite <- E; apply in_or_app; right; exact Hd).
      apply in_app_or in Hd'.
      destruct Hd' as [Hd' | [<- | Hd']]; [ apply H1 in Hd' | | apply H2 in Hd' ]; lia. }
    split; [ | lia ].
    apply in_app_or in Hxin. destruct Hxin as [Hxp | Hxc].
    + apply Hpds in Hxp. apply Hless in Hxp. lia.
    + apply Hcds. exact Hxc.
Qed.

Lemma Product_available_discount_tie_goes_to_first_witness :
  eval (Product_available_discount_in (fun l => l) (@rev Discount.t)) 150
    (bind_to mug category_ties_store) = inr [winter_sale]
  /\ eval (Product_available_discount_in (fun l => l) (fun l => l)) 150
       (bind_to mug category_ties_store) = inr [autumn_sale]
  /\ exists d0,
       eval (Product_available_discount_in (@rev Discount.t) (@rev Discount.t)) 150
         (bind_to mug tie_store) = inr [d0]
       /\ product_applicable tie_store mug 150 d0
       /\ Discount.percentage d0 = Discount.percentage spring_sale.
Proof.
  assert (Hc : exists c, In c (categories category_ties_store)
                         /\ Category.id c = Product.category mug).
  { exists kitchen. split; [ left; reflexivity | reflexivity ]. }
  assert (Hc' : exists c, In c (categories tie_store)
                          /\ Category.id c = Product.category mug).
  { exists kitchen. split; [ left; reflexivity | reflexivity ]. }
  split; [ | split ].
  - destruct (Product_available_discount_tie_goes_to_first
                (fun l => l) (@rev Discount.t) 150 mug category_ties_store
                (fun l => Permutation_refl l) (fun l => Permutation_rev l) Hc)
      as (_ & _ & H & _).
    apply (H [summer_sale] winter_sale [autumn_sale]).
    + reflexivity.
    + intros d' [<- | []]. simpl. lia.
    + intros d' [<- | []]. simpl. lia.
  - destruct (Product_available_discount_tie_goes_to_first
                (fun l => l) (fun l => l) 150 mug category_ties_store
                (fun l => Permutation_refl l) (fun l => Permutation_refl l) Hc)
      as (_ & _ & H & _).
    apply (H [summer_sale] autumn_sale [winter_sale]).
    + reflexivity.
    + intros d' [<- | []]. simpl. lia.
    + intros d' [<- | []]. simpl. lia.
  - destruct (Product_available_discount_tie_goes_to_first
                (@rev Discount.t) (@rev Discount.t) 150 mug tie_store
                (fun l => Permutation_rev l) (fun l => Permutation_rev l) Hc')
      as (_ & _ & _ & H & _).
    apply (H spring_sale).
    + split; [ right; left; reflexivity | ].
      split; [ left; reflexivity | simpl; lia ].
    + intros d' (Hd' & _ & _).
      destruct Hd' as [<- | [<- | []]]; simpl; lia.
Defined.

(** ** Tables *)

Section TableFacts.
Context {Row K : Type} (pk : Row -> Pk) (key : Row -> K) (clash : Row -> Row -> bool).
Hypothesis clash_spec : forall a b, clash a b = true <-> key a = key b.

Lemma next_pk_fresh (table : list Row) (r : Row) :
  In r table -> pk r < next_pk pk table.
Proof.
  induction table as [ | a table IH]; simpl; [ intros [] | ].
  intros [<- | Hin]; [ lia | ]. specialize (IH Hin). lia.
Qed.

Lemma has_pk_false (k : Pk) (table : list Row) :
  has_pk pk k table = false <-> forall r, In r table -> pk r <> k.
Proof.
  unfold has_pk. split.
  - intros H r Hr E. rewrite <- not_true_iff_false in H. apply H.
    apply existsb_exists. exists r. split; [ exact Hr | apply Z.eqb_eq, E ].
  - intros H. apply not_true_iff_false. intros E. apply existsb_exists in E.
    destruct E as [r [Hr E]]. apply Z.eqb_eq in E. exact (H r Hr E).
Qed.

Lemma violates_false (row : Row) (table : list Row) :
  violates pk clash row table = false <->
  forall r, In r table -> pk r <> pk row -> key r <> key row.
Proof.
  unfold violates. split.
  - intros H r Hr Hpk Hkey. rewrite <- not_true_iff_false in H. apply H.
    apply existsb_exists. exists r. split; [ exact Hr | ].
    apply andb_true_iff. split; [ | apply clash_spec, Hkey ].
    apply negb_true_iff, Z.eqb_neq, Hpk.
  - intros H. apply not_true_iff_false. intros E. apply existsb_exists in E.
    destruct E as [r [Hr E]]. apply andb_true_iff in E. destruct E as [Hpk Hkey].
    apply negb_true_iff, Z.eqb_neq in Hpk. apply clash_spec in Hkey.
    exact (H r Hr Hpk Hkey).
Qed.

Lemma violates_true (row r : Row) (table : list Row) :
  In r table -> pk r <> pk row -> key r = key row ->
  violates pk clash row table = true.
Proof.
  intros Hr Hpk Hkey. apply existsb_exists. exists r. split; [ exact Hr | ].
  apply andb_true_iff. split; [ | apply clash_spec, Hkey ].
  apply negb_true_iff, Z.eqb_neq, Hpk.
Qed.

Lemma replace_absent (row : Row) (table : list Row) :
  (forall r, In r table -> pk r <> pk row) ->
  map (fun r => if pk r =? pk row then row else r) table = table.
Proof.
  intros H. induction table as [ | a table IH]; [ reflexivity | ].
  simpl. rewrite IH; [ | intros r Hr; apply H; right; exact Hr ].
  destruct (Z.eqb_spec (pk a) (pk row)) as [E | _]; [ | reflexivity ].
  exfalso. apply (H a); [ left; reflexivity | exact E ].
Qed.

Lemma replace_unique (row : Row) (table : list Row) :
  unique_rows pk table -> unique_rows key table ->
  (forall r, In r table -> pk r <> pk row -> key r <> key row) ->
  unique_rows key (map (fun r => if pk r =? pk row then row else r) table).
Proof.
  unfold unique_rows. induction table as [ | a table IH]; intros Hpk Hkey Hrow.
  - constructor.
  - simpl in *. inversion_clear Hpk as [ | ? ? Ha Hpk' ].
    inversion_clear Hkey as [ | ? ? Hka Hkey' ].
    destruct (Z.eqb_spec (pk a) (pk row)) as [E | NE].
    + assert (Hfresh : forall r, In r table -> pk r <> pk row).
      { intros r Hr Er. apply Ha. rewrite E, <- Er. apply in_map, Hr. }
      rewrite (replace_absent row table Hfresh). constructor; [ | exact Hkey' ].
      intros Hin. apply in_map_iff in Hin. destruct Hin as [r [Er Hr]].
      apply (Hrow r); [ right; exact Hr | apply Hfresh, Hr | exact Er ].
    + constructor.
      * intros Hin. apply in_map_iff in Hin. destruct Hin as [r' [Er' Hr']].
        apply in_map_iff in Hr'. destruct Hr' as [r [Er Hr]]. subst r'.
        destruct (Z.eqb_spec (pk r) (pk row)) as [_ | _].
        -- apply (Hrow a); [ left; reflexivity | exact NE | symmetry; exact Er' ].
        -- apply Hka. rewrite <- Er'. apply in_map, Hr.
      * apply IH; [ exact Hpk' | exact Hkey' | ].
        intros r Hr. apply Hrow. right. exact Hr.
Qed.

(** A save that does not violate the constraint keeps the keys apart. *)
Lemma upsert_unique (row : Row) (table : list Row) :
  unique_rows pk table -> unique_rows key table ->
  violates pk clash row table = false ->
  unique_rows key (upsert pk row table).
Proof.
  intros Hpk Hkey Hv. rewrite violates_false in Hv. unfold upsert.
  destruct (has_pk pk (pk row) table) eqn:E.
  - apply replace_unique; assumption.
  - rewrite has_pk_false in E. unfold unique_rows. rewrite map_app. simpl.
    apply NoDup_app; [ exact Hkey | constructor; [ intros [] | constructor ] | ].
    intros x Hx [<- | []]. apply in_map_iff in Hx. destruct Hx as [r [Er Hr]].
    apply (Hv r Hr (E r Hr) Er).
Qed.

Lemma upsert_pk_unique (row : Row) (table : list Row) :
  unique_rows pk table -> unique_rows pk (upsert pk row table).
Proof.
  intros Hpk. unfold upsert, unique_rows.
  destruct (has_pk pk (pk row) table) eqn:E.
  - rewrite map_map.
    rewrite (map_ext _ pk); [ exact Hpk | ].
    intros a. destruct (Z.eqb_spec (pk a) (pk row)) as [Ea | _]; congruence.
  - rewrite has_pk_false in E. rewrite map_app. simpl.
    apply NoDup_app; [ exact Hpk | constructor; [ intros [] | constructor ] | ].
    intros x Hx [<- | []]. apply in_map_iff in Hx. destruct Hx as [r [Er Hr]].
    exact (E r Hr Er).
Qed.

Lemma filter_unique (f : Row -> bool) (table : list Row) :
  unique_rows key table -> unique_rows key (filter f table).
Proof.
  unfold unique_rows. induction table as [ | a table IH]; intros H; [ constructor | ].
  simpl in *. inversion_clear H as [ | ? ? Ha H' ].
  destruct (f a); [ | apply IH, H' ].
  simpl. constructor; [ | apply IH, H' ].
  intros Hin. apply Ha. apply in_map_iff in Hin. destruct Hin as [r [Er Hr]].
  apply filter_In in Hr. rewrite <- Er. apply in_map, Hr.
Qed.
End TableFacts.

(** ** The store *)

Lemma pair_eqb_eq (a b : Pk * Pk) : pair_eqb a b = true <-> a = b.
Proof.
  destruct a as [a1 a2], b as [b1 b2]. unfold pair_eqb. simpl.
  rewrite andb_true_iff, !Z.eqb_eq. split; [ intros [-> ->]; reflexivity | ].
  intros E. injection E as -> ->. split; reflexivity.
Qed.

Lemma ProductLike_clash_spec (a b : ProductLike.t) :
  ProductLike_clash a b = true
  <-> ProductLike_unique_together a = ProductLike_unique_together b.
Proof. apply pair_eqb_eq. Qed.

Lemma CartItem_clash_spec (a b : CartItem.t) :
  CartItem_clash a b = true
  <-> CartItem_unique_together a = CartItem_unique_together b.
Proof. apply pair_eqb_eq. Qed.

Lemma save_run {Row} (table : Store -> list Row) set pk clash (row : Row) now st :
  save table set pk clash row now st =
  if violates pk clash row (table st)
  then (inl IntegrityError, st)
  else (inr tt, set (upsert pk row (table st)) st).
Proof.
  unfold save, bind, gets. destruct (violates pk clash row (table st)); reflexivity.
Qed.

Lemma ProductLike_create_run user product now st :
  ProductLike_create user product now st =
  if violates ProductLike.id ProductLike_clash
       (ProductLike.mk (next_pk ProductLike.id (product_likes st)) user product now)
       (product_likes st)
  then (inl IntegrityError, st)
  else (inr (ProductLike.mk (next_pk ProductLike.id (product_likes st)) user product now),
        set_product_likes
          (upsert ProductLike.id
             (ProductLike.mk (next_pk ProductLike.id (product_likes st)) user product now)
             (product_likes st)) st).
Proof.
  unfold ProductLike_create, ProductLike_save, bind, timezone_now, gets. simpl.
  rewrite save_run. simpl.
  destruct (violates ProductLike.id ProductLike_clash _ (product_likes st)); reflexivity.
Qed.

Lemma CartItem_create_run cart product quantity now st :
  CartItem_create cart product quantity now st =
  if violates CartItem.id CartItem_clash
       (CartItem.mk (next_pk CartItem.id (cart_items st)) cart product quantity now)
       (cart_items st)
  then (inl IntegrityError, st)
  else (inr (CartItem.mk (next_pk CartItem.id (cart_items st)) cart product quantity now),
        set_cart_items
          (upsert CartItem.id
             (CartItem.mk (next_pk CartItem.id (cart_items st)) cart product quantity now)
             (cart_items st)) st).
Proof.
  unfold CartItem_create, CartItem_save, bind, timezone_now, gets. simpl.
  rewrite save_run. simpl.
  destruct (violates CartItem.id CartItem_clash _ (cart_items st)); reflexivity.
Qed.

Lemma ProductLike_save_store_unique row now st :
  store_unique st -> store_unique (exec (ProductLike_save row) now st).
Proof.
  intros H. pose proof H as (Hid & Hpair & Hcart).
  unfold exec, ProductLike_save. rewrite save_run.
  destruct (violates ProductLike.id ProductLike_clash row (product_likes st)) eqn:E;
    simpl; [ exact H | ].
  split; [ apply upsert_pk_unique, Hid | ]. split; [ | exact Hcart ].
  apply (upsert_unique _ _ _ ProductLike_clash_spec); assumption.
Qed.

Lemma CartItem_save_store_unique row now st :
  store_unique st -> store_unique (exec (CartItem_save row) now st).
Proof.
  intros H. pose proof H as (Hlid & Hlpair & Hid & Hpair).
  unfold exec, CartItem_save. rewrite save_run.
  destruct (violates CartItem.id CartItem_clash row (cart_items st)) eqn:E;
    simpl; [ exact H | ].
  split; [ exact Hlid | ]. split; [ exact Hlpair | ].
  split; [ apply upsert_pk_unique, Hid | ].
  apply (upsert_unique _ _ _ CartItem_clash_spec); assumption.
Qed.

Lemma save_elsewhere_store_unique {Row} (table : Store -> list Row) set pk clash row now st :
  (forall v st', product_likes (set v st') = product_likes st'
                 /\ cart_items (set v st') = cart_items st') ->
  store_unique st -> store_unique (exec (save table set pk clash row) now st).
Proof.
  intros Hset H. unfold exec. rewrite save_run.
  destruct (violates pk clash row (table st)); simpl; [ exact H | ].
  unfold store_unique.
  destruct (Hset (upsert pk row (table st)) st) as [-> ->]. exact H.
Qed.

Ltac filtered_unique :=
  unfold exec, Customer_delete, Category_delete, Product_delete, Cart_delete,
    Cart_items_remove, modify,
    delete_products, delete_carts, store_unique, cascade; simpl;
  repeat match goal with
         | |- _ /\ _ => split
         | |- unique_rows _ (filter _ _) => apply filter_unique
         end; assumption.

(** Every request leaves primary keys and the declared pairs unique. *)
Lemma perform_store_unique (rq : Request) (now : DateTime) (st : Store) :
  store_unique st -> store_unique (exec (perform rq) now st).
Proof.
  intros H. pose proof H as (Hlid & Hlpair & Hid & Hpair).
  destruct rq; simpl perform;
    try (apply save_elsewhere_store_unique; [ intros; split; reflexivity | exact H ]);
    try (unfold exec; simpl; exact H);
    try solve [ unfold exec; simpl; filtered_unique ].
  - apply ProductLike_save_store_unique, H.
  - apply CartItem_save_store_unique, H.
  - unfold exec, bind. rewrite ProductLike_create_run.
    pose proof (ProductLike_save_store_unique
                  (ProductLike.mk (next_pk ProductLike.id (product_likes st)) user product now)
                  now st H) as Hs.
    unfold exec, ProductLike_save in Hs. rewrite save_run in Hs.
    destruct (violates ProductLike.id ProductLike_clash _ (product_likes st));
      simpl in *; exact Hs.
  - unfold exec, bind. rewrite CartItem_create_run.
    pose proof (CartItem_save_store_unique
                  (CartItem.mk (next_pk CartItem.id (cart_items st)) cart product quantity now)
                  now st H) as Hs.
    unfold exec, CartItem_save in Hs. rewrite save_run in Hs.
    destruct (violates CartItem.id CartItem_clash _ (cart_items st));
      simpl in *; exact Hs.
  - unfold exec, Cart_items_add, bind, gets. simpl.
    destruct (existsb _ (cart_items st)); [ exact H | ].
    rewrite CartItem_create_run.
    pose proof (CartItem_save_store_unique
                  (CartItem.mk (next_pk CartItem.id (cart_items st)) cart product 1 now)
                  now st H) as Hs.
    unfold exec, CartItem_save in Hs. rewrite save_run in Hs.
    destruct (violates CartItem.id CartItem_clash _ (cart_items st));
      simpl in *; exact Hs.
Qed.

Lemma reachable_store_unique (st : Store) : reachable st -> store_unique st.
Proof.
  induction 1 as [ | now st rq _ IH].
  - repeat split; constructor.
  - apply perform_store_unique, IH.
Qed.

(** ** ProductLike *)

(** C7: in every reachable state of the store no (user, product) pair is held
    by two rows of ProductLike; creating a like for a pair that already has
    one is rejected with an integrity error and leaves the store as it was,
    while a like for a pair that has none is stored. *)
Theorem ProductLike_unique_together_enforced :
  (forall st, reachable st ->
              NoDup (map ProductLike_unique_together (product_likes st)))
  /\ (forall now st user product,
        (exists r, In r (product_likes st)
                   /\ ProductLike.user r = user /\ ProductLike.product r = product) ->
        ProductLike_create user product now st = (inl IntegrityError, st))
  /\ (forall now st user product,
        (forall r, In r (product_likes st) ->
                   ~ (ProductLike.user r = user /\ ProductLike.product r = product)) ->
        exists row,
          ProductLike_create user product now st
          = (inr row, set_product_likes (product_likes st ++ [row]) st)
          /\ ProductLike.user row = user /\ ProductLike.product row = product).
Proof.
  split; [ | split ].
  - intros st Hst. apply (reachable_store_unique st Hst).
  - intros now st user product [r (Hr & Hu & Hp)].
    rewrite ProductLike_create_run.
    rewrite (violates_true ProductLike.id _ _ ProductLike_clash_spec _ r); [ reflexivity | | | ].
    + exact Hr.
    + simpl. pose proof (next_pk_fresh ProductLike.id _ r Hr). lia.
    + unfold ProductLike_unique_together. simpl. rewrite Hu, Hp. reflexivity.
  - intros now st user product Hnone.
    rewrite ProductLike_create_run.
    set (row := ProductLike.mk (next_pk ProductLike.id (product_likes st)) user product now).
    assert (Hv : violates ProductLike.id ProductLike_clash row (product_likes st) = false).
    { apply (violates_false ProductLike.id _ _ ProductLike_clash_spec).
      intros r Hr _ E. apply (Hnone r Hr).
      unfold ProductLike_unique_together in E. simpl in E. injection E as -> ->.
      split; reflexivity. }
    rewrite Hv. exists row. split; [ | split; reflexivity ].
    unfold upsert.
    assert (Hp : has_pk ProductLike.id (ProductLike.id row) (product_likes st) = false).
    { apply has_pk_false. intros r Hr.
      pose proof (next_pk_fresh ProductLike.id _ r Hr). simpl. lia. }
    rewrite Hp. reflexivity.
Qed.

Lemma ProductLike_unique_together_enforced_witness :
  NoDup (map ProductLike_unique_together (product_likes liked_store))
  /\ ProductLike_create 7 1 11 liked_store = (inl IntegrityError, liked_store)
  /\ exists row,
       ProductLike_create 8 1 11 liked_store
       = (inr row, set_product_likes (product_likes liked_store ++ [row]) liked_store)
       /\ ProductLike.user row = 8 /\ ProductLike.product row = 1.
Proof.
  destruct ProductLike_unique_together_enforced as (Hinv & Hreject & Haccept).
  split; [ | split ].
  - apply Hinv. apply reachable_step, reachable_empty.
  - apply Hreject. exists (ProductLike.mk 1 7 1 10).
    split; [ left; reflexivity | split; reflexivity ].
  - apply Haccept. intros r [<- | []] [Hu _]. discriminate Hu.
Defined.

(** ** CartItem *)

(** C8: in every reachable state of the store no (cart, product) pair is held
    by two rows of CartItem; creating an item for a pair that already has one
    is rejected with an integrity error and leaves the store as it was, while
    an item for a pair that has none is stored. *)
Theorem CartItem_unique_together_enforced :
  (forall st, reachable st ->
              NoDup (map CartItem_unique_together (cart_items st)))
  /\ (forall now st cart product quantity,
        (exists r, In r (cart_items st)
                   /\ CartItem.cart r = cart /\ CartItem.product r = product) ->
        CartItem_create cart product quantity now st = (inl IntegrityError, st))
  /\ (forall now st cart product quantity,
        (forall r, In r (cart_items st) ->
                   ~ (CartItem.cart r = cart /\ CartItem.product r = product)) ->
        exists row,
          CartItem_create cart product quantity now st
          = (inr row, set_cart_items (cart_items st ++ [row]) st)
          /\ CartItem.cart row = cart /\ CartItem.product row = product
          /\ CartItem.quantity row = quantity).
Proof.
  split; [ | split ].
  - intros st Hst. apply (reachable_store_unique st Hst).
  - intros now st cart product quantity [r (Hr & Hc & Hp)].
    rewrite CartItem_create_run.
    rewrite (violates_true CartItem.id _ _ CartItem_clash_spec _ r); [ reflexivity | | | ].
    + exact Hr.
    + simpl. pose proof (next_pk_fresh CartItem.id _ r Hr). lia.
    + unfold CartItem_unique_together. simpl. rewrite Hc, Hp. reflexivity.
  - intros now st cart product quantity Hnone.
    rewrite CartItem_create_run.
    set (row := CartItem.mk (next_pk CartItem.id (cart_items st)) cart product quantity now).
    assert (Hv : violates CartItem.id CartItem_clash row (cart_items st) = false).
    { apply (violates_false CartItem.id _ _ CartItem_clash_spec).
      intros r Hr _ E. apply (Hnone r Hr).
      unfold CartItem_unique_together in E. simpl in E. injection E as -> ->.
      split; reflexivity. }
    rewrite Hv. exists row. split; [ | repeat split ].
    unfold upsert.
    assert (Hp : has_pk CartItem.id (CartItem.id row) (cart_items st) = false).
    { apply has_pk_false. intros r Hr.
      pose proof (next_pk_fresh CartItem.id _ r Hr). simpl. lia. }
    rewrite Hp. reflexivity.
Qed.

Lemma CartItem_unique_together_enforced_witness :
  NoDup (map CartItem_unique_together (cart_items cart_store))
  /\ CartItem_create 3 1 5 11 cart_store = (inl IntegrityError, cart_store)
  /\ exists row,
       CartItem_create 3 2 1 11 cart_store
       = (inr row, set_cart_items (cart_items cart_store ++ [row]) cart_store)
       /\ CartItem.cart row = 3 /\ CartItem.product row = 2
       /\ CartItem.quantity row = 1.
Proof.
  destruct CartItem_unique_together_enforced as (Hinv & Hreject & Haccept).
  split; [ | split ].
  - apply Hinv. apply reachable_step, reachable_empty.
  - apply Hreject. exists (CartItem.mk 1 3 1 2 10).
    split; [ left; reflexivity | split; reflexivity ].
  - apply Haccept. intros r [<- | []] [_ Hp]. discriminate Hp.
Defined.

(** ** Category *)

(** C9: deleting category [k] succeeds and removes it; each child of [k] (a
    category other than [k] whose parent is [k]) stays in the table with its
    parent set to null and its id, name, description and creation time as
    they were; categories that are neither [k] nor its children stay as
    they were. *)
Theorem Category_delete_nulls_children
    (now : DateTime) (st : Store) (k : Pk) (child : Category.t) :
  In child (categories st) ->
  Category.parent child = Some k ->
  Category.id child <> k ->
  eval (Category_delete k) now st = inr tt
  /\ (exists child',
        In child' (categories (exec (Category_delete k) now st))
        /\ Category.parent child' = None
        /\ Category.id child' = Category.id child
        /\ Category.name child' = Category.name child
        /\ Category.description child' = Category.description child
        /\ Category.created_at child' = Category.created_at child)
  /\ (forall c, In c (categories (exec (Category_delete k) now st)) ->
                Category.id c <> k /\ Category.parent c <> Some k)
  /\ (forall c, In c (categories st) -> Category.id c <> k ->
                Category.parent c <> Some k ->
                In c (categories (exec (Category_delete k) now st))).
Proof.
  intros Hin Hparent Hid.
  split; [ reflexivity | ].
  unfold exec, Category_delete, modify, cascade. simpl.
  split; [ | split ].
  - exists (Category_set_parent None child). simpl.
    split; [ | repeat split ].
    apply filter_In. split.
    + apply in_map_iff. exists child. split; [ | exact Hin ].
      rewrite Hparent. simpl. rewrite Z.eqb_refl. reflexivity.
    + simpl. rewrite orb_false_r. apply negb_true_iff, Z.eqb_neq, Hid.
  - intros c Hc. apply filter_In in Hc. destruct Hc as [Hc Hk].
    rewrite orb_false_r in Hk. apply negb_true_iff, Z.eqb_neq in Hk.
    split; [ exact Hk | ].
    apply in_map_iff in Hc. destruct Hc as [c0 [E _]].
    destruct (Category.parent c0) as [q | ] eqn:Eq; simpl in E.
    + rewrite orb_false_r in E. destruct (Z.eqb_spec q k) as [-> | NE].
      * subst c. simpl. discriminate.
      * subst c. rewrite Eq. congruence.
    + subst c. rewrite Eq. discriminate.
  - intros c Hc Hck Hcp. apply filter_In. split.
    + apply in_map_iff. exists c. split; [ | exact Hc ].
      destruct (Category.parent c) as [q | ]; simpl; [ | reflexivity ].
      rewrite orb_false_r. destruct (Z.eqb_spec q k) as [-> | _]; congruence.
    + rewrite orb_false_r. apply negb_true_iff, Z.eqb_neq, Hck.
Qed.

Lemma Category_delete_nulls_children_witness :
  eval (Category_delete 1) 20 category_store = inr tt
  /\ categories (exec (Category_delete 1) 20 category_store)
     = [ Category.mk 2 "Mugs" None "cups and mugs" 5;
         Category.mk 3 "Plates" None "" 6;
         garden ]
  /\ exists child',
       In child' (categories (exec (Category_delete 1) 20 category_store))
       /\ Category.parent child' = None
       /\ Category.id child' = 2
       /\ Category.name child' = "Mugs"%string
       /\ Category.description child' = "cups and mugs"%string
       /\ Category.created_at child' = 5.
Proof.
  split; [ reflexivity | ]. split; [ reflexivity | ].
  destruct (Category_delete_nulls_children 20 category_store 1 mugs) as (_ & H & _).
  - right. left. reflexivity.
  - reflexivity.
  - discriminate.
  - exact H.
Defined.

(** * Further properties *)

(** ** Windows and usage limits *)

(** X1: a discount whose [start_time] is after its [end_time] is active at no
    instant. *)
Theorem Discount_is_active_never_when_inverted (d : Discount.t) (st : Store) :
  Discount.end_time d < Discount.start_time d ->
  forall now, eval Discount_is_active now (bind_to d st) = inr false.
Proof.
  intros Hinv now. unfold eval. rewrite Discount_is_active_run. simpl. f_equal.
  apply andb_false_iff.
  destruct (Z.leb_spec (Discount.start_time d) now); [ right | left; reflexivity ].
  apply Z.leb_gt. lia.
Qed.

Lemma Discount_is_active_never_when_inverted_witness :
  eval Discount_is_active 150 (bind_to inverted_sale empty_store) = inr false.
Proof.
  apply (Discount_is_active_never_when_inverted inverted_sale empty_store).
  simpl. lia.
Defined.

(** X2: the instants at which a discount is active form an interval: active
    at two instants, it is active at every instant between them. *)
Theorem Discount_is_active_between (d : Discount.t) (st : Store) (t1 t t2 : DateTime) :
  eval Discount_is_active t1 (bind_to d st) = inr true ->
  eval Discount_is_active t2 (bind_to d st) = inr true ->
  t1 <= t <= t2 ->
  eval Discount_is_active t (bind_to d st) = inr true.
Proof.
  unfold eval. rewrite !Discount_is_active_run. simpl.
  intros H1 H2 Ht. injection H1 as H1. injection H2 as H2.
  apply andb_true_iff in H1, H2. f_equal. apply andb_true_iff. lia.
Qed.

Lemma Discount_is_active_between_witness :
  eval Discount_is_active 150 (bind_to summer_sale empty_store) = inr true.
Proof.
  apply (Discount_is_active_between summer_sale empty_store 100 150 200).
  - reflexivity.
  - reflexivity.
  - lia.
Defined.

(** X3: a code whose [used_count] has reached its [usage_limit] is valid at no
    instant; a limit of 0 makes a code that is never valid. *)
Theorem DiscountCode_is_valid_never_when_exhausted
    (c : DiscountCode.t) (st : Store) (limit : Z) :
  DiscountCode.usage_limit c = Some limit ->
  limit <= DiscountCode.used_count c ->
  forall now, eval DiscountCode_is_valid now (bind_to c st) = inr false.
Proof.
  intros Hl Hu now. unfold eval. rewrite DiscountCode_is_valid_run. simpl.
  rewrite Hl. f_equal. apply andb_false_iff. right. apply Z.ltb_ge. exact Hu.
Qed.

Lemma DiscountCode_is_valid_never_when_exhausted_witness :
  eval DiscountCode_is_valid 500 (bind_to (welcome5 6) empty_store) = inr false.
Proof.
  apply (DiscountCode_is_valid_never_when_exhausted (welcome5 6) empty_store 5).
  - reflexivity.
  - simpl. lia.
Defined.

(** X4: using a code can only take validity away: of two codes with the same
    window and limit, if the one used more often is valid at an instant, so
    is the one used less often. *)
Theorem DiscountCode_is_valid_antitone_in_used_count
    (c c' : DiscountCode.t) (st st' : Store) (now : DateTime) :
  DiscountCode.valid_from c = DiscountCode.valid_from c' ->
  DiscountCode.valid_to c = DiscountCode.valid_to c' ->
  DiscountCode.usage_limit c = DiscountCode.usage_limit c' ->
  DiscountCode.used_count c <= DiscountCode.used_count c' ->
  eval DiscountCode_is_valid now (bind_to c' st') = inr true ->
  eval DiscountCode_is_valid now (bind_to c st) = inr true.
Proof.
  unfold eval. rewrite !DiscountCode_is_valid_run. simpl.
  intros -> -> -> Hu H. injection H as H. f_equal.
  apply andb_true_iff in H. destruct H as [Hw Hl].
  apply andb_true_iff. split; [ exact Hw | ].
  destruct (DiscountCode.usage_limit c') as [limit | ]; [ | reflexivity ].
  apply Z.ltb_lt in Hl. apply Z.ltb_lt. lia.
Qed.

Lemma DiscountCode_is_valid_antitone_in_used_count_witness :
  eval DiscountCode_is_valid 500 (bind_to (welcome5 2) empty_store) = inr true.
Proof.
  apply (DiscountCode_is_valid_antitone_in_used_count
           (welcome5 2) (welcome5 4) empty_store empty_store 500);
    try reflexivity.
  simpl. lia.
Defined.

(** ** More on Product.available_discount *)

Local Abbreviation enumeration st p now :=
  (filter (window_contains now) (Product_discounts st (Product.id p))
   ++ filter (window_contains now) (Category_discounts st (Product.category p))).

(** A value returned is the head of the sorted enumeration, and the category
    was there to fetch. *)
Lemma Product_available_discount_value now p st l :
  eval Product_available_discount now (bind_to p st) = inr l ->
  (exists c, In c (categories st) /\ Category.id c = Product.category p)
  /\ l = firstn 1 (sorted Discount.percentage true (enumeration st p now)).
Proof.
  intros H.
  assert (Hc : exists c, In c (categories st) /\ Category.id c = Product.category p).
  { revert H.
    unfold eval, Product_available_discount, Product_category, bind, timezone_now,
      get_self, gets, ret. simpl.
    destruct (find (fun c0 => Category.id c0 =? Product.category p) (categories st))
      as [c' | ] eqn:E; [ intros _ | discriminate ].
    apply find_some in E. destruct E as [Hin E]. apply Z.eqb_eq in E.
    exists c'. split; assumption. }
  split; [ exact Hc | ].
  unfold eval in H. rewrite (Product_available_discount_run now p st Hc) in H.
  cbn [fst] in H. injection H as <-. reflexivity.
Qed.

Lemma In_firstn_1_sorted {A} (key : A -> Z) (reverse : bool) (l : list A) (x : A) :
  In x (firstn 1 (sorted key reverse l)) -> In x l.
Proof.
  intros H.
  assert (Hs : In x (sorted key reverse l)).
  { rewrite <- (firstn_skipn 1 (sorted key reverse l)). apply in_or_app. left. exact H. }
  clear H. rename Hs into H.
  apply (Permutation_in _ (Permutation_sym (sorted_Permutation key reverse l))), H.
Qed.

(** The percentage at the head depends on which elements there are, not on
    their order or number. *)
Lemma head_percentage_of_members {A} (key : A -> Z) (l l' : list A) :
  (forall x, In x l <-> In x l') ->
  map key (firstn 1 (sorted key true l)) = map key (firstn 1 (sorted key true l')).
Proof.
  intros Hsame.
  destruct l as [ | a l0].
  - destruct l' as [ | a' l0']; [ reflexivity | ].
    exfalso. apply (Hsame a'). left. reflexivity.
  - destruct l' as [ | a' l0'].
    + exfalso. apply (Hsame a). left. reflexivity.
    + destruct (first_greatest_split key (a :: l0)) as (l1 & x & l2 & E & H1 & H2);
        [ discriminate | ].
      destruct (first_greatest_split key (a' :: l0')) as (l1' & x' & l2' & E' & H1' & H2');
        [ discriminate | ].
      rewrite E, E'.
      rewrite (sorted_reverse_first key l1 x l2 H1 H2).
      rewrite (sorted_reverse_first key l1' x' l2' H1' H2'). simpl. f_equal.
      assert (Hx : In x (l1' ++ x' :: l2')).
      { rewrite <- E'. apply Hsame. rewrite E. apply in_elt. }
      assert (Hx' : In x' (l1 ++ x :: l2)).
      { rewrite <- E. apply Hsame. rewrite E'. apply in_elt. }
      apply in_app_or in Hx, Hx'.
      assert (key x <= key x').
      { destruct Hx as [Hx | [<- | Hx]]; [ apply H1' in Hx | | apply H2' in Hx ]; lia. }
      assert (key x' <= key x).
      { destruct Hx' as [Hx' | [<- | Hx']]; [ apply H1 in Hx' | | apply H2 in Hx' ]; lia. }
      lia.
Qed.

(** X5: whatever [available_discount] returns is active by the discount's own
    [is_active] at the same instant. *)
Theorem Product_available_discount_is_active
    (now : DateTime) (p : Product.t) (st : Store) (l : list Discount.t) (d : Discount.t) :
  eval Product_available_discount now (bind_to p st) = inr l ->
  In d l ->
  eval Discount_is_active now (bind_to d st) = inr true.
Proof.
  intros H Hd. apply Product_available_discount_value in H. destruct H as [_ ->].
  apply In_firstn_1_sorted in Hd. apply in_app_or in Hd.
  unfold eval. rewrite Discount_is_active_run. simpl. f_equal.
  apply andb_true_iff.
  destruct Hd as [Hd | Hd];
    [ apply In_active_Product_discounts in Hd | apply In_active_Category_discounts in Hd ];
    lia.
Qed.

Lemma Product_available_discount_is_active_witness :
  eval Discount_is_active 150 (bind_to autumn_sale discount_store) = inr true.
Proof.
  apply (Product_available_discount_is_active 150 mug discount_store [autumn_sale]).
  - reflexivity.
  - left. reflexivity.
Defined.

(** X6: the percentage returned does not depend on the order in which the
    database enumerates its rows: two stores that hold the same discounts and
    the same links return the same percentage (which of several discounts of
    that percentage is returned may differ). *)
Theorem Product_available_discount_percentage_order_free
    (now : DateTime) (p : Product.t) (st st' : Store) :
  (forall d, In d (discounts st) <-> In d (discounts st')) ->
  (forall l, In l (discount_products st) <-> In l (discount_products st')) ->
  (forall l, In l (discount_categories st) <-> In l (discount_categories st')) ->
  (exists c, In c (categories st) /\ Category.id c = Product.category p) ->
  (exists c, In c (categories st') /\ Category.id c = Product.category p) ->
  exists l l',
    eval Product_available_discount now (bind_to p st) = inr l
    /\ eval Product_available_discount now (bind_to p st') = inr l'
    /\ map Discount.percentage l = map Discount.percentage l'.
Proof.
  intros Hd Hp Hc Hcat Hcat'. unfold eval.
  rewrite (Product_available_discount_run now p st Hcat).
  rewrite (Product_available_discount_run now p st' Hcat'). cbn [fst].
  eexists. eexists. split; [ reflexivity | ]. split; [ reflexivity | ].
  apply head_percentage_of_members. intros d.
  rewrite !in_app_iff, !In_active_Product_discounts, !In_active_Category_discounts.
  rewrite (Hd d), (Hp (Discount.id d, Product.id p)),
    (Hc (Discount.id d, Product.category p)). tauto.
Qed.

Lemma Product_available_discount_percentage_order_free_witness :
  exists l l',
    eval Product_available_discount 150 (bind_to mug discount_store) = inr l
    /\ eval Product_available_discount 150 (bind_to mug reordered_discount_store) = inr l'
    /\ map Discount.percentage l = map Discount.percentage l'.
Proof.
  apply (Product_available_discount_percentage_order_free
           150 mug discount_store reordered_discount_store).
  - intros d. simpl. tauto.
  - intros l. simpl. tauto.
  - intros l. simpl. tauto.
  - exists kitchen. split; [ left; reflexivity | reflexivity ].
  - exists kitchen. split; [ left; reflexivity | reflexivity ].
Defined.

(** X7: the category tree has no part in the result: with the product's own
    category in the table, any other table of categories (other parents,
    other rows) gives the same answer; the discounts of a category's
    ancestors are not passed down. *)
Theorem Product_available_discount_ignores_hierarchy
    (now : DateTime) (p : Product.t) (st : Store) (categories' : list Category.t) :
  (exists c, In c (categories st) /\ Category.id c = Product.category p) ->
  (exists c, In c categories' /\ Category.id c = Product.category p) ->
  eval Product_available_discount now (bind_to p (set_categories categories' st))
  = eval Product_available_discount now (bind_to p st).
Proof.
  intros Hc Hc'. unfold eval.
  rewrite (Product_available_discount_run now p st Hc).
  rewrite (Product_available_discount_run now p (set_categories categories' st) Hc').
  reflexivity.
Qed.

Lemma Product_available_discount_ignores_hierarchy_witness :
  eval Product_available_discount 150
    (bind_to mug (set_categories [garden; Category.mk 1 "Kitchen" (Some 4) "" 0]
                    discount_store))
  = eval Product_available_discount 150 (bind_to mug discount_store).
Proof.
  apply (Product_available_discount_ignores_hierarchy 150 mug discount_store).
  - exists kitchen. split; [ left; reflexivity | reflexivity ].
  - exists (Category.mk 1 "Kitchen" (Some 4) "" 0).
    split; [ right; left; reflexivity | reflexivity ].
Defined.

Lemma Product_available_discount_raises_witness :
  Product_available_discount 150 (bind_to stray_mug discount_store)
  = (inl DoesNotExist, bind_to stray_mug discount_store).
Proof.
  apply (Product_available_discount_raises 150 stray_mug discount_store).
  intros c [<- | []]. simpl. discriminate.
Defined.

Lemma In_add_link (l : Pk * Pk) (links : list (Pk * Pk)) : In l (add_link l links).
Proof.
  unfold add_link. destruct (existsb (pair_eqb l) links) eqn:E.
  - apply existsb_exists in E. destruct E as [l' [Hin E]].
    apply pair_eqb_eq in E. subst l'. exact Hin.
  - apply in_or_app. right. left. reflexivity.
Qed.

(** X8: once a discount of the table is attached to a product
    ([discount.products.add(product)]), at every instant of its window the
    product's [available_discount] returns a discount of at least its
    percentage. *)
Theorem Product_available_discount_after_add
    (now at_ : DateTime) (p : Product.t) (st : Store) (d : Discount.t) :
  (exists c, In c (categories st) /\ Category.id c = Product.category p) ->
  In d (discounts st) ->
  Discount.start_time d <= now <= Discount.end_time d ->
  exists d0,
    eval Product_available_discount now
      (bind_to p (exec (perform (AddDiscountProduct (Discount.id d) (Product.id p))) at_ st))
    = inr [d0]
    /\ Discount.percentage d <= Discount.percentage d0.
Proof.
  intros Hc Hd Hw. unfold eval, exec. simpl perform. unfold modify. cbn [snd].
  set (st' := set_discount_products _ st).
  rewrite (Product_available_discount_run now p st' Hc). cbn [fst].
  assert (Hin : In d (enumeration st' p now)).
  { apply in_or_app. left. apply In_active_Product_discounts.
    split; [ exact Hd | ]. split; [ apply In_add_link | exact Hw ]. }
  destruct (first_greatest_split Discount.percentage (enumeration st' p now))
    as (l1 & x & l2 & E & H1 & H2).
  { intros E. rewrite E in Hin. destruct Hin. }
  exists x. rewrite E. rewrite (sorted_reverse_first Discount.percentage l1 x l2 H1 H2).
  split; [ reflexivity | ].
  rewrite E in Hin. apply in_app_or in Hin.
  destruct Hin as [Hin | [<- | Hin]]; [ apply H1 in Hin | | apply H2 in Hin ]; lia.
Qed.

Lemma Product_available_discount_after_add_witness :
  exists d0,
    eval Product_available_discount 250
      (bind_to mug (exec (perform (AddDiscountProduct 2 1)) 0 discount_store))
    = inr [d0]
    /\ Discount.percentage autumn_sale <= Discount.percentage d0.
Proof.
  apply (Product_available_discount_after_add 250 0 mug discount_store autumn_sale).
  - exists kitchen. split; [ left; reflexivity | reflexivity ].
  - right. left. reflexivity.
  - simpl. lia.
Defined.

(** X9: a deleted discount is never returned again: after [discount.delete()]
    no product's [available_discount] holds a discount with that primary
    key. *)
Theorem Product_available_discount_after_Discount_delete
    (now at_ : DateTime) (p : Product.t) (st : Store) (k : Pk)
    (l : list Discount.t) (d : Discount.t) :
  eval Product_available_discount now (bind_to p (exec (Discount_delete k) at_ st))
  = inr l ->
  In d l ->
  Discount.id d <> k.
Proof.
  intros H Hd. apply Product_available_discount_value in H. destruct H as [_ ->].
  apply In_firstn_1_sorted in Hd. apply in_app_or in Hd.
  assert (Hin : In d (discounts (exec (Discount_delete k) at_ st))).
  { destruct Hd as [Hd | Hd];
      [ apply In_active_Product_discounts in Hd | apply In_active_Category_discounts in Hd ];
      apply Hd. }
  unfold exec, Discount_delete, modify, cascade in Hin. simpl in Hin.
  apply filter_In in Hin. destruct Hin as [_ Hk].
  rewrite orb_false_r in Hk. apply negb_true_iff, Z.eqb_neq in Hk. exact Hk.
Qed.

Lemma Product_available_discount_after_Discount_delete_witness :
  eval Product_available_discount 150
    (bind_to mug (exec (Discount_delete 2) 0 discount_store)) = inr [summer_sale]
  /\ Discount.id summer_sale <> 2.
Proof.
  split; [ reflexivity | ].
  apply (Product_available_discount_after_Discount_delete
           150 0 mug discount_store 2 [summer_sale] summer_sale).
  - reflexivity.
  - left. reflexivity.
Defined.

(** ** More on Product.overview *)

(** X11: one more review changes the overview of its product only: when a
    store holds one review [r] more than another, the overview of [r]'s
    product counts one more, and the overview of every other product,
    average and count, is the same. *)
Theorem product_overview_one_more_review
    (now : DateTime) (p : Product.t) (st st' : Store) (r : Review.t) :
  reviews st' = reviews st ++ [r] ->
  exists o o',
    eval product_overview now (bind_to p st) = inr o
    /\ eval product_overview now (bind_to p st') = inr o'
    /\ (Review.product r = Product.id p -> num_reviews o' = num_reviews o + 1)
    /\ (Review.product r <> Product.id p -> o' = o).
Proof.
  intros E. unfold eval. rewrite !product_overview_run. cbn [fst].
  eexists. eexists. split; [ reflexivity | ]. split; [ reflexivity | ].
  unfold Product_reviews. rewrite E, filter_app. simpl filter.
  cbn [avg_rating num_reviews].
  split.
  - intros Hp. apply Z.eqb_eq in Hp. rewrite Hp.
    rewrite length_app, Nat2Z.inj_add. reflexivity.
  - intros Hp. apply Z.eqb_neq in Hp. rewrite Hp. rewrite app_nil_r. reflexivity.
Qed.

Lemma product_overview_one_more_review_witness :
  exists o o',
    eval product_overview 20 (bind_to mug reviewed_store) = inr o
    /\ eval product_overview 20
         (bind_to mug (set_reviews (reviews reviewed_store ++ [Review.mk 5 1 4 2 "" 14])
                         reviewed_store)) = inr o'
    /\ num_reviews o' = num_reviews o + 1.
Proof.
  destruct (product_overview_one_more_review 20 mug reviewed_store
              (set_reviews (reviews reviewed_store ++ [Review.mk 5 1 4 2 "" 14])
                 reviewed_store)
              (Review.mk 5 1 4 2 "" 14) eq_refl)
    as (o & o' & Ho & Ho' & Hsame & _).
  exists o, o'. split; [ exact Ho | ]. split; [ exact Ho' | ].
  exact (Hsame eq_refl).
Defined.

(** ** Category.__str__ *)

Lemma string_append_assoc (a b c : string) : ((a ++ b) ++ c = a ++ (b ++ c))%string.
Proof.
  induction a as [ | ch a IH]; simpl; [ reflexivity | ]. rewrite IH. reflexivity.
Qed.

Lemma concat_snoc (sep : string) (l : list string) (x : string) :
  l <> [] ->
  String.concat sep (l ++ [x]) = (String.concat sep l ++ sep ++ x)%string.
Proof.
  induction l as [ | a l IH]; [ congruence | intros _ ].
  destruct l as [ | b l]; [ reflexivity | ].
  change (String.concat sep ((a :: b :: l) ++ [x]))
    with (a ++ sep ++ String.concat sep ((b :: l) ++ [x]))%string.
  rewrite IH; [ | discriminate ].
  change (String.concat sep (a :: b :: l))
    with (a ++ sep ++ String.concat sep (b :: l))%string.
  rewrite !string_append_assoc. reflexivity.
Qed.

(** More nested calls allowed change nothing of a result. *)
Lemma Category_str_more_depth (st : Store) (depth : nat) :
  forall (c : Category.t) (r : Exn + string) (depth' : nat),
    Category_str depth st c = Some r -> (depth <= depth')%nat ->
    Category_str depth' st c = Some r.
Proof.
  induction depth as [ | depth IH]; intros c r depth' H Hle; [ discriminate | ].
  destruct depth' as [ | depth']; [ lia | ].
  simpl in *.
  destruct (Category.parent c) as [k | ]; [ | exact H ].
  destruct (find (fun c0 => Category.id c0 =? k) (categories st)) as [p | ]; [ | exact H ].
  destruct (Category_str depth st p) as [rp | ] eqn:Ep; [ | discriminate ].
  rewrite (IH p rp depth' Ep); [ exact H | lia ].
Qed.

(** X12: the string of a category is the path of names from the top of its
    tree down to it, joined by " > ": for a category with the categories
    [above] over it (nearest first, the last without a parent), any depth of
    calls beyond their number returns the names of [above] reversed and then
    its own. *)
Theorem Category_str_is_path (st : Store) (above : list Category.t) :
  forall (c : Category.t) (depth : nat),
    ancestry st c above ->
    (List.length above < depth)%nat ->
    Category_str depth st c
    = Some (inr (String.concat " > " (map Category.name (rev above ++ [c])))).
Proof.
  induction above as [ | p above IH]; intros c depth Ha Hd.
  - destruct depth as [ | depth]; [ simpl in Hd; lia | ].
    simpl in *. rewrite Ha. reflexivity.
  - destruct depth as [ | depth]; [ simpl in Hd; lia | ].
    destruct Ha as [(k & Hk & Hp) Ha].
    simpl Category_str. rewrite Hk, Hp.
    rewrite (IH p depth Ha); [ | simpl in Hd; lia ].
    change (rev (p :: above)) with (rev above ++ [p]).
    rewrite (map_app Category.name (rev above ++ [p]) [c]).
    change (map Category.name [c]) with [Category.name c].
    rewrite (concat_snoc " > " (map Category.name (rev above ++ [p])) (Category.name c));
      [ reflexivity | ].
    rewrite map_app. intros E. apply app_eq_nil in E. destruct E as [_ E].
    discriminate E.
Qed.

Lemma Category_str_is_path_witness :
  Category_str 2 category_store mugs = Some (inr "Kitchen > Mugs"%string).
Proof.
  apply (Category_str_is_path category_store [kitchen] mugs 2).
  - split; [ exists 1; split; reflexivity | reflexivity ].
  - simpl. lia.
Defined.

(** X13: on a parent cycle [__str__] never returns.  If from a category the
    foreign keys lead only to categories that have a parent in the table
    again (a category that is its own parent, or a longer cycle), then
    whatever the depth of calls allowed the recursion limit is hit. *)
Theorem Category_str_never_returns_on_cycle (st : Store) (on_cycle : Category.t -> Prop) :
  (forall c, on_cycle c ->
             exists k p, Category.parent c = Some k
                         /\ find (fun c' => Category.id c' =? k) (categories st) = Some p
                         /\ on_cycle p) ->
  forall (depth : nat) (c : Category.t),
    on_cycle c -> Category_str depth st c = None.
Proof.
  intros Hcycle depth. induction depth as [ | depth IH]; intros c Hc; [ reflexivity | ].
  destruct (Hcycle c Hc) as (k & p & Hk & Hp & Hpc).
  simpl. rewrite Hk, Hp, (IH p Hpc). reflexivity.
Qed.

Lemma Category_str_never_returns_on_cycle_witness :
  Category_str 1000 (set_categories [kitchen; loop] empty_store) loop = None.
Proof.
  apply (Category_str_never_returns_on_cycle
           (set_categories [kitchen; loop] empty_store) (fun c => c = loop)).
  - intros c ->. exists 5, loop. split; [ reflexivity | ]. split; reflexivity.
  - reflexivity.
Defined.

(** X14: on a tree [__str__] stays within the recursion limit.  If a rank
    decreases from every category (the instance or a row) to the parent its
    key fetches, then a depth of calls of the instance's rank plus one gives
    a result; and it is a string, not [DoesNotExist], when every parent key
    has a row. *)
Theorem Category_str_returns_on_tree
    (st : Store) (self : Category.t) (rank : Category.t -> nat) :
  (forall c k p, c = self \/ In c (categories st) ->
                 Category.parent c = Some k ->
                 find (fun c' => Category.id c' =? k) (categories st) = Some p ->
                 (rank p < rank c)%nat) ->
  exists r,
    Category_str (S (rank self)) st self = Some r
    /\ ((forall c k, c = self \/ In c (categories st) ->
                     Category.parent c = Some k ->
                     exists p, find (fun c' => Category.id c' =? k) (categories st) = Some p) ->
        exists s, r = inr s).
Proof.
  intros Hrank.
  assert (H : forall n c, c = self \/ In c (categories st) -> (rank c <= n)%nat ->
              exists r, Category_str (S n) st c = Some r
                /\ ((forall c k, c = self \/ In c (categories st) ->
                       Category.parent c = Some k ->
                       exists p, find (fun c' => Category.id c' =? k) (categories st)
                                 = Some p) ->
                    exists s, r = inr s)).
  { induction n as [ | n IH]; intros c Hc Hn.
    - simpl. destruct (Category.parent c) as [k | ] eqn:Hk.
      + destruct (find (fun c0 => Category.id c0 =? k) (categories st)) as [p | ] eqn:Hp.
        * pose proof (Hrank c k p Hc Hk Hp). lia.
        * eexists. split; [ reflexivity | ]. intros Hfull.
          destruct (Hfull c k Hc Hk) as [p Hp']. congruence.
      + eexists. split; [ reflexivity | ]. intros _. eexists. reflexivity.
    - change (Category_str (S (S n)) st c)
        with (match Category.parent c with
              | None => Some (inr (Category.name c))
              | Some k =>
                  match find (fun c0 => Category.id c0 =? k) (categories st) with
                  | None => Some (inl DoesNotExist)
                  | Some parent =>
                      match Category_str (S n) st parent with
                      | Some (inr s) => Some (inr (s ++ " > " ++ Category.name c)%string)
                      | Some (inl e) => Some (inl e)
                      | None => None
                      end
                  end
              end).
      destruct (Category.parent c) as [k | ] eqn:Hk.
      + destruct (find (fun c0 => Category.id c0 =? k) (categories st)) as [p | ] eqn:Hp.
        * pose proof (Hrank c k p Hc Hk Hp) as Hlt.
          assert (Hpin : p = self \/ In p (categories st)).
          { right. apply find_some in Hp. apply Hp. }
          destruct (IH p Hpin) as (rp & Erp & Hfull); [ lia | ].
          rewrite Erp. destruct rp as [e | s].
          -- eexists. split; [ reflexivity | ]. intros Hf.
             destruct (Hfull Hf) as [s Es]. discriminate Es.
          -- eexists. split; [ reflexivity | ]. intros _. eexists. reflexivity.
        * eexists. split; [ reflexivity | ]. intros Hfull.
          destruct (Hfull c k Hc Hk) as [p Hp']. congruence.
      + eexists. split; [ reflexivity | ]. intros _. eexists. reflexivity. }
  apply (H (rank self) self); [ left; reflexivity | lia ].
Qed.

Lemma Category_str_returns_on_tree_witness :
  exists r,
    Category_str 3 category_store plates = Some r
    /\ ((forall c k, c = plates \/ In c (categories category_store) ->
                     Category.parent c = Some k ->
                     exists p, find (fun c' => Category.id c' =? k)
                                 (categories category_store) = Some p) ->
        exists s, r = inr s).
Proof.
  apply (Category_str_returns_on_tree category_store plates
           (fun c => match Category.parent c with None => 0%nat | Some _ => 2%nat end)).
  intros c k p Hc Hk Hp.
  assert (Hroot : Category.parent p = None).
  { destruct Hc as [-> | [<- | [<- | [<- | [<- | []]]]]]; simpl in Hk;
      try discriminate; injection Hk as <-; simpl in Hp; injection Hp as <-; reflexivity. }
  rewrite Hroot, Hk. lia.
Defined.

(** ** Delivery.__str__ and the order of a delivery *)

Lemma Delivery_str_run now d db :
  Delivery_str now (d, db) =
  match find (fun o => match Order.delivery o with
                       | Some k => k =? Delivery.id d
                       | None => false
                       end) (orders db) with
  | Some o => (inr ("Delivery for Order #" ++ str_int (Order.id o) ++ " - "
                    ++ Delivery.delivery_status d)%string, (d, db))
  | None => (inl DoesNotExist, (d, db))
  end.
Proof.
  unfold Delivery_str, Delivery_order, bind, gets. simpl.
  destruct (find _ (orders db)); reflexivity.
Qed.

Lemma points_to_delivery_iff (o : Order.t) (k : Pk) :
  match Order.delivery o with
  | Some k' => k' =? k
  | None => false
  end = true <-> Order.delivery o = Some k.
Proof.
  destruct (Order.delivery o) as [k' | ].
  - rewrite Z.eqb_eq. split; [ intros ->; reflexivity | intros E; injection E; auto ].
  - split; discriminate.
Qed.

(** X15: [str()] of a delivery needs an order: with no order pointing to the
    delivery it raises [DoesNotExist]; with an order pointing to it (and any
    other such order having the same id) it returns "Delivery for Order #",
    the order's id, " - " and the delivery's status. *)
Theorem Delivery_str_needs_order (now : DateTime) (d : Delivery.t) (db : Sales) :
  ((forall o, In o (orders db) -> Order.delivery o <> Some (Delivery.id d)) ->
   Delivery_str now (d, db) = (inl DoesNotExist, (d, db)))
  /\ (forall o,
        In o (orders db) -> Order.delivery o = Some (Delivery.id d) ->
        (forall o', In o' (orders db) -> Order.delivery o' = Some (Delivery.id d) ->
                    Order.id o' = Order.id o) ->
        Delivery_str now (d, db)
        = (inr ("Delivery for Order #" ++ str_int (Order.id o) ++ " - "
                ++ Delivery.delivery_status d)%string, (d, db))).
Proof.
  rewrite Delivery_str_run. split.
  - intros Hnone.
    destruct (find _ (orders db)) as [o | ] eqn:E; [ | reflexivity ].
    apply find_some in E. destruct E as [Hin E].
    apply points_to_delivery_iff in E. exfalso. exact (Hnone o Hin E).
  - intros o Hin Ho Hone.
    destruct (find _ (orders db)) as [o' | ] eqn:E.
    + apply find_some in E. destruct E as [Hin' E].
      apply points_to_delivery_iff in E. rewrite (Hone o' Hin' E). reflexivity.
    + exfalso. apply (find_none _ _ E) in Hin.
      apply points_to_delivery_iff in Ho. congruence.
Qed.

Lemma Delivery_str_needs_order_witness :
  Delivery_str 20 (delivery3, mkSales empty_store [] [] [] [delivery3])
  = (inl DoesNotExist, (delivery3, mkSales empty_store [] [] [] [delivery3]))
  /\ Delivery_str 20 (delivery3, sales_db)
     = (inr "Delivery for Order #7 - shipped"%string, (delivery3, sales_db)).
Proof.
  split.
  - destruct (Delivery_str_needs_order 20 delivery3
                (mkSales empty_store [] [] [] [delivery3])) as [H _].
    apply H. intros o [].
  - destruct (Delivery_str_needs_order 20 delivery3 sales_db) as [_ H].
    apply (H order7).
    + left. reflexivity.
    + reflexivity.
    + intros o' [<- | []] _. reflexivity.
Defined.

(** X16: deleting an order takes its items and its payment with it and leaves
    its delivery in the table; when no other order points to that delivery,
    the delivery's [str()] raises from then on. *)
Theorem Order_delete_orphans_delivery
    (now at_ : DateTime) (db : Sales) (k : Pk) (d : Delivery.t) :
  In d (deliveries db) ->
  (forall o, In o (orders db) -> Order.delivery o = Some (Delivery.id d) ->
             Order.id o = k) ->
  In d (deliveries (exec (Order_delete k) at_ db))
  /\ (forall i, In i (order_items (exec (Order_delete k) at_ db)) -> OrderItem.order i <> k)
  /\ (forall y, In y (payments (exec (Order_delete k) at_ db)) -> Payment.order y <> k)
  /\ Delivery_str now (d, exec (Order_delete k) at_ db)
     = (inl DoesNotExist, (d, exec (Order_delete k) at_ db)).
Proof.
  intros Hd Honly. unfold exec, Order_delete, modify, cascade. cbn [snd].
  split; [ exact Hd | ].
  split; [ | split ].
  - intros i Hi. simpl in Hi. apply filter_In in Hi. destruct Hi as [_ Hi].
    simpl in Hi. rewrite orb_false_r in Hi. apply negb_true_iff, Z.eqb_neq in Hi. exact Hi.
  - intros y Hy. simpl in Hy. apply filter_In in Hy. destruct Hy as [_ Hy].
    simpl in Hy. rewrite orb_false_r in Hy. apply negb_true_iff, Z.eqb_neq in Hy. exact Hy.
  - rewrite Delivery_str_run. cbn [orders].
    destruct (find _ (filter _ (orders db))) as [o | ] eqn:E; [ | reflexivity ].
    apply find_some in E. destruct E as [Hin E].
    apply points_to_delivery_iff in E.
    apply filter_In in Hin. destruct Hin as [Hin Hk].
    simpl in Hk. rewrite orb_false_r in Hk. apply negb_true_iff, Z.eqb_neq in Hk.
    exfalso. apply Hk. apply Honly; assumption.
Qed.

Lemma Order_delete_orphans_delivery_witness :
  In delivery3 (deliveries (exec (Order_delete 7) 10 sales_db))
  /\ Delivery_str 20 (delivery3, exec (Order_delete 7) 10 sales_db)
     = (inl DoesNotExist, (delivery3, exec (Order_delete 7) 10 sales_db)).
Proof.
  destruct (Order_delete_orphans_delivery 20 10 sales_db 7 delivery3)
    as (Hin & _ & _ & Hraise).
  - left. reflexivity.
  - intros o [<- | []] _. reflexivity.
  - split; [ exact Hin | exact Hraise ].
Defined.

(** X17: deleting a delivery deletes no order: an order that pointed to the
    delivery stays with a null [delivery] and its other columns as they
    were, no order points to the deleted delivery afterwards, and there are
    as many orders as before. *)
Theorem Delivery_delete_nulls_order
    (at_ : DateTime) (db : Sales) (k : Pk) (o : Order.t) :
  In o (orders db) ->
  Order.delivery o = Some k ->
  (exists o',
      In o' (orders (exec (Delivery_delete k) at_ db))
      /\ Order.delivery o' = None
      /\ Order.id o' = Order.id o
      /\ Order.customer o' = Order.customer o
      /\ Order.status o' = Order.status o
      /\ Order.total_price o' = Order.total_price o
      /\ Order.created_at o' = Order.created_at o
      /\ Order.updated_at o' = Order.updated_at o)
  /\ (forall o', In o' (orders (exec (Delivery_delete k) at_ db)) ->
                 Order.delivery o' <> Some k)
  /\ List.length (orders (exec (Delivery_delete k) at_ db)) = List.length (orders db)
  /\ (forall d, In d (deliveries (exec (Delivery_delete k) at_ db)) -> Delivery.id d <> k).
Proof.
  intros Hin Ho. unfold exec, Delivery_delete, modify, cascade. cbn [snd orders deliveries].
  split; [ | split; [ | split ] ].
  - exists (Order_set_delivery None o). split; [ | repeat split ].
    apply in_map_iff. exists o. split; [ | exact Hin ].
    rewrite Ho. simpl. rewrite Z.eqb_refl. reflexivity.
  - intros o' Ho'. apply in_map_iff in Ho'. destruct Ho' as [o0 [E _]].
    destruct (Order.delivery o0) as [q | ] eqn:Eq; simpl in E.
    + rewrite orb_false_r in E. destruct (Z.eqb_spec q k) as [-> | NE].
      * subst o'. simpl. discriminate.
      * subst o'. rewrite Eq. congruence.
    + subst o'. rewrite Eq. discriminate.
  - apply length_map.
  - intros d Hd. apply filter_In in Hd. destruct Hd as [_ Hd].
    simpl in Hd. rewrite orb_false_r in Hd. apply negb_true_iff, Z.eqb_neq in Hd. exact Hd.
Qed.

Lemma Delivery_delete_nulls_order_witness :
  orders (exec (Delivery_delete 3) 10 sales_db) = [Order.mk 7 1 None 0 0 "pending" 2500]
  /\ forall o', In o' (orders (exec (Delivery_delete 3) 10 sales_db)) ->
                Order.delivery o' <> Some 3.
Proof.
  split; [ reflexivity | ].
  destruct (Delivery_delete_nulls_order 10 sales_db 3 order7) as (_ & H & _).
  - left. reflexivity.
  - reflexivity.
  - exact H.
Defined.

(** ** Cascades of a delete *)

Lemma mem_In (k : Pk) (ks : list Pk) : mem k ks = true <-> In k ks.
Proof.
  unfold mem. rewrite existsb_exists. split.
  - intros [x [Hin E]]. apply Z.eqb_eq in E. subst x. exact Hin.
  - intros Hin. exists k. split; [ exact Hin | apply Z.eqb_refl ].
Qed.

Lemma In_cascade {Row} (fk : Row -> Pk) (ks : list Pk) (table : list Row) (r : Row) :
  In r (cascade fk ks table) <-> In r table /\ ~ In (fk r) ks.
Proof.
  unfold cascade. rewrite filter_In, negb_true_iff, <- not_true_iff_false, mem_In.
  tauto.
Qed.

Lemma unique_rows_eq {Row K} (key : Row -> K) (table : list Row) (a b : Row) :
  unique_rows key table -> In a table -> In b table -> key a = key b -> a = b.
Proof.
  unfold unique_rows. induction table as [ | x table IH]; intros H Ha Hb E; [ destruct Ha | ].
  simpl in H. inversion_clear H as [ | ? ? Hx H' ].
  destruct Ha as [<- | Ha], Hb as [<- | Hb].
  - reflexivity.
  - exfalso. apply Hx. rewrite E. apply in_map, Hb.
  - exfalso. apply Hx. rewrite <- E. apply in_map, Ha.
  - apply IH; assumption.
Qed.

(** X18: deleting a category deletes the products in it and what hangs on
    them: afterwards no product is in the category, no review, like, cart
    item or discount link refers to a product that was in it, and no
    discount link refers to the category; with unique product keys, the
    products of other categories (those of its subcategories too) stay. *)
Theorem Category_delete_cascades_to_products (at_ : DateTime) (st : Store) (k : Pk) :
  (forall p, In p (products (exec (Category_delete k) at_ st)) -> Product.category p <> k)
  /\ (forall p, In p (products st) -> Product.category p = k ->
        (forall r, In r (reviews (exec (Category_delete k) at_ st)) ->
                   Review.product r <> Product.id p)
        /\ (forall l, In l (product_likes (exec (Category_delete k) at_ st)) ->
                      ProductLike.product l <> Product.id p)
        /\ (forall i, In i (cart_items (exec (Category_delete k) at_ st)) ->
                      CartItem.product i <> Product.id p)
        /\ (forall l, In l (discount_products (exec (Category_delete k) at_ st)) ->
                      snd l <> Product.id p))
  /\ (forall l, In l (discount_categories (exec (Category_delete k) at_ st)) -> snd l <> k)
  /\ (unique_rows Product.id (products st) ->
      forall p, In p (products st) -> Product.category p <> k ->
                In p (products (exec (Category_delete k) at_ st))).
Proof.
  unfold exec, Category_delete, modify. cbn [snd]. simpl.
  set (ps := map Product.id
               (filter (fun p => (Product.category p =? k) || false) (products st))).
  assert (Hps : forall p, In p (products st) -> Product.category p = k ->
                          In (Product.id p) ps).
  { intros p Hp Hk. apply in_map. apply filter_In. split; [ exact Hp | ].
    rewrite orb_false_r. apply Z.eqb_eq, Hk. }
  split; [ | split; [ | split ] ].
  - intros p Hp Hk. apply In_cascade in Hp. destruct Hp as [Hp Hn].
    apply Hn. apply Hps; assumption.
  - intros p Hp Hk. specialize (Hps p Hp Hk).
    repeat split; intros x Hx E; apply In_cascade in Hx; destruct Hx as [_ Hn];
      apply Hn; rewrite E; exact Hps.
  - intros l Hl E. apply In_cascade in Hl. destruct Hl as [_ Hn]. apply Hn.
    left. symmetry. exact E.
  - intros Hu p Hp Hk. apply In_cascade. split; [ exact Hp | ].
    intros Hin. apply in_map_iff in Hin. destruct Hin as [p' [E Hp']].
    apply filter_In in Hp'. destruct Hp' as [Hp' Hk'].
    rewrite orb_false_r in Hk'. apply Z.eqb_eq in Hk'.
    assert (p' = p) by (apply (unique_rows_eq Product.id (products st)); assumption).
    subst p'. contradiction.
Qed.

(** X19: deleting a customer deletes the customer's reviews, likes and cart,
    and the items of that cart; it deletes no product, category or
    discount. *)
Theorem Customer_delete_cascades (at_ : DateTime) (st : Store) (k : Pk) :
  (forall c, In c (customers (exec (Customer_delete k) at_ st)) -> Customer.id c <> k)
  /\ (forall r, In r (reviews (exec (Customer_delete k) at_ st)) -> Review.user r <> k)
  /\ (forall l, In l (product_likes (exec (Customer_delete k) at_ st)) ->
                ProductLike.user l <> k)
  /\ (forall c, In c (carts (exec (Customer_delete k) at_ st)) -> Cart.customer c <> k)
  /\ (forall c, In c (carts st) -> Cart.customer c = k ->
                forall i, In i (cart_items (exec (Customer_delete k) at_ st)) ->
                          CartItem.cart i <> Cart.id c)
  /\ products (exec (Customer_delete k) at_ st) = products st
  /\ categories (exec (Customer_delete k) at_ st) = categories st
  /\ discounts (exec (Customer_delete k) at_ st) = discounts st.
Proof.
  unfold exec, Customer_delete, modify, delete_carts. cbn [snd]. simpl.
  set (cs := map Cart.id (filter (fun c => Cart.customer c =? k) (carts st))).
  assert (Hcs : forall c, In c (carts st) -> Cart.customer c = k -> In (Cart.id c) cs).
  { intros c Hc Hk. apply in_map. apply filter_In. split; [ exact Hc | apply Z.eqb_eq, Hk ]. }
  split; [ | split; [ | split; [ | split; [ | split ] ] ] ].
  - intros c Hc E. apply In_cascade in Hc. destruct Hc as [_ Hn]. apply Hn.
    left. symmetry. exact E.
  - intros r Hr E. apply In_cascade in Hr. destruct Hr as [_ Hn]. apply Hn.
    left. symmetry. exact E.
  - intros l Hl E. apply In_cascade in Hl. destruct Hl as [_ Hn]. apply Hn.
    left. symmetry. exact E.
  - intros c Hc E. apply In_cascade in Hc. destruct Hc as [Hc Hn]. apply Hn.
    apply Hcs; assumption.
  - intros c Hc Hk i Hi E. apply In_cascade in Hi. destruct Hi as [_ Hn]. apply Hn.
    rewrite E. apply Hcs; assumption.
  - repeat split.
Qed.

(** X20: deleting a discount deletes its codes and its links to products and
    categories, and nothing else: the codes of other discounts stay, and no
    product or category is deleted. *)
Theorem Discount_delete_cascades_to_codes (at_ : DateTime) (st : Store) (k : Pk) :
  (forall d, In d (discounts (exec (Discount_delete k) at_ st)) -> Discount.id d <> k)
  /\ (forall c, In c (discount_codes (exec (Discount_delete k) at_ st)) ->
                DiscountCode.discount c <> k)
  /\ (forall c, In c (discount_codes st) -> DiscountCode.discount c <> k ->
                In c (discount_codes (exec (Discount_delete k) at_ st)))
  /\ (forall l, In l (discount_products (exec (Discount_delete k) at_ st)) -> fst l <> k)
  /\ (forall l, In l (discount_categories (exec (Discount_delete k) at_ st)) -> fst l <> k)
  /\ products (exec (Discount_delete k) at_ st) = products st
  /\ categories (exec (Discount_delete k) at_ st) = categories st.
Proof.
  unfold exec, Discount_delete, modify. cbn [snd]. simpl.
  split; [ | split; [ | split; [ | split; [ | split ] ] ] ].
  - intros d Hd E. apply In_cascade in Hd. destruct Hd as [_ Hn]. apply Hn.
    left. symmetry. exact E.
  - intros c Hc E. apply In_cascade in Hc. destruct Hc as [_ Hn]. apply Hn.
    left. symmetry. exact E.
  - intros c Hc Hk. apply In_cascade. split; [ exact Hc | ].
    intros [E | []]. apply Hk. symmetry. exact E.
  - intros l Hl E. apply In_cascade in Hl. destruct Hl as [_ Hn]. apply Hn.
    left. symmetry. exact E.
  - intros l Hl E. apply In_cascade in Hl. destruct Hl as [_ Hn]. apply Hn.
    left. symmetry. exact E.
  - split; reflexivity.
Qed.

Lemma Category_delete_cascades_to_products_witness :
  products (exec (Category_delete 1) 20 shelf_store) = [cup]
  /\ In cup (products (exec (Category_delete 1) 20 shelf_store))
  /\ forall r, In r (reviews (exec (Category_delete 1) 20 shelf_store)) ->
               Review.product r <> Product.id mug.
Proof.
  destruct (Category_delete_cascades_to_products 20 shelf_store 1)
    as (_ & Hgone & _ & Hstay).
  split; [ reflexivity | ]. split.
  - apply Hstay.
    + unfold unique_rows. simpl.
      constructor; [ intros [E | []]; discriminate E | ].
      constructor; [ intros [] | constructor ].
    + right. left. reflexivity.
    + simpl. discriminate.
  - apply (Hgone mug); [ left; reflexivity | reflexivity ].
Defined.

(** ** Columns declared unique *)

Section TableSteps.
Context {Row K : Type} (pk : Row -> Pk) (key : Row -> K) (clash : Row -> Row -> bool).
Hypothesis clash_spec : forall a b, clash a b = true <-> key a = key b.

Lemma table_step_unique (table table' : list Row) :
  table_step pk clash table table' ->
  unique_rows pk table /\ unique_rows key table ->
  unique_rows pk table' /\ unique_rows key table'.
Proof.
  intros [-> | [[f ->] | [row [Hv ->]]]] [Hpk Hkey].
  - split; assumption.
  - split; apply filter_unique; assumption.
  - split; [ apply upsert_pk_unique, Hpk | ].
    apply (upsert_unique pk key clash clash_spec); assumption.
Qed.
End TableSteps.

Lemma Customer_clash_spec (a b : Customer.t) :
  Customer_clash a b = true <-> Customer.user a = Customer.user b.
Proof. apply Z.eqb_eq. Qed.

Lemma DiscountCode_clash_spec (a b : DiscountCode.t) :
  DiscountCode_clash a b = true <-> DiscountCode.code a = DiscountCode.code b.
Proof. apply String.eqb_eq. Qed.

Lemma Product_clash_spec (a b : Product.t) :
  Product_clash a b = true <-> Product.slug a = Product.slug b.
Proof. apply String.eqb_eq. Qed.

Lemma Cart_clash_spec (a b : Cart.t) :
  Cart_clash a b = true <-> Cart.customer a = Cart.customer b.
Proof. apply Z.eqb_eq. Qed.

Ltac unfold_requests :=
  unfold exec, Customer_save, Category_save, Discount_save, DiscountCode_save,
    Product_save, Review_save, ProductLike_save, Cart_save, CartItem_save,
    Cart_items_add, Cart_items_remove, Customer_delete, Category_delete,
    Discount_delete, DiscountCode_delete, Product_delete, Review_delete,
    ProductLike_delete, Cart_delete, CartItem_delete, modify, delete_products,
    delete_carts, cascade, bind, gets.

Ltac table_step_cases :=
  first
    [ left; reflexivity
    | right; left; eexists; reflexivity
    | right; right; eexists; split; [ eassumption | reflexivity ] ].

Ltac table_step_tac :=
  unfold_requests; simpl;
  repeat first
    [ rewrite save_run
    | rewrite ProductLike_create_run
    | rewrite CartItem_create_run
    | match goal with
      | |- context [if ?b then _ else _] => destruct b eqn:?; simpl
      end ];
  table_step_cases.

Lemma perform_customers_step rq now st :
  table_step Customer.id Customer_clash (customers st) (customers (exec (perform rq) now st)).
Proof. destruct rq; simpl perform; table_step_tac. Qed.

Lemma perform_discount_codes_step rq now st :
  table_step DiscountCode.id DiscountCode_clash
    (discount_codes st) (discount_codes (exec (perform rq) now st)).
Proof. destruct rq; simpl perform; table_step_tac. Qed.

Lemma perform_products_step rq now st :
  table_step Product.id Product_clash (products st) (products (exec (perform rq) now st)).
Proof. destruct rq; simpl perform; table_step_tac. Qed.

Lemma perform_carts_step rq now st :
  table_step Cart.id Cart_clash (carts st) (carts (exec (perform rq) now st)).
Proof. destruct rq; simpl perform; table_step_tac. Qed.

Lemma reachable_columns_unique (st : Store) : reachable st -> columns_unique st.
Proof.
  induction 1 as [ | now st rq _ IH].
  - repeat split; constructor.
  - destruct IH as (Hcu & Hco & Hpr & Hca).
    split; [ | split; [ | split ] ].
    + apply (table_step_unique _ _ _ Customer_clash_spec _ _
               (perform_customers_step rq now st) Hcu).
    + apply (table_step_unique _ _ _ DiscountCode_clash_spec _ _
               (perform_discount_codes_step rq now st) Hco).
    + apply (table_step_unique _ _ _ Product_clash_spec _ _
               (perform_products_step rq now st) Hpr).
    + apply (table_step_unique _ _ _ Cart_clash_spec _ _
               (perform_carts_step rq now st) Hca).
Qed.

(** X21: [Product.slug] is [unique=True]: in every reachable state of the
    store a slug is held by one product, so a slug names at most one product;
    saving a product under the slug of another one is rejected with an
    integrity error and leaves the store as it was. *)
Theorem Product_slug_unique :
  (forall st, reachable st -> NoDup (map Product.slug (products st)))
  /\ (forall st a b, reachable st -> In a (products st) -> In b (products st) ->
                     Product.slug a = Product.slug b -> a = b)
  /\ (forall now st row other,
        In other (products st) -> Product.id other <> Product.id row ->
        Product.slug other = Product.slug row ->
        Product_save row now st = (inl IntegrityError, st)).
Proof.
  split; [ | split ].
  - intros st Hst. apply (reachable_columns_unique st Hst).
  - intros st a b Hst. apply unique_rows_eq. apply (reachable_columns_unique st Hst).
  - intros now st row other Hin Hpk Hslug. unfold Product_save. rewrite save_run.
    rewrite (violates_true Product.id _ _ Product_clash_spec row other); auto.
Qed.

Lemma Product_slug_unique_witness :
  NoDup (map Product.slug (products mug_store))
  /\ Product_save (Product.mk 2 "Other mug" "mug" "" 1 Product.product 990 1 None false 0 0 0)
       11 mug_store
     = (inl IntegrityError, mug_store).
Proof.
  destruct Product_slug_unique as (Hinv & _ & Hreject). split.
  - apply Hinv. apply reachable_step, reachable_empty.
  - apply (Hreject 11 mug_store _ mug).
    + left. reflexivity.
    + simpl. discriminate.
    + reflexivity.
Defined.

(** X22: [DiscountCode.code] is [unique=True]: in every reachable state of
    the store a code string is held by one DiscountCode, so a code entered by
    a customer names at most one row; saving a second row with the same code
    is rejected with an integrity error and leaves the store as it was. *)
Theorem DiscountCode_code_unique :
  (forall st, reachable st -> NoDup (map DiscountCode.code (discount_codes st)))
  /\ (forall st a b, reachable st -> In a (discount_codes st) -> In b (discount_codes st) ->
                     DiscountCode.code a = DiscountCode.code b -> a = b)
  /\ (forall now st row other,
        In other (discount_codes st) -> DiscountCode.id other <> DiscountCode.id row ->
        DiscountCode.code other = DiscountCode.code row ->
        DiscountCode_save row now st = (inl IntegrityError, st)).
Proof.
  split; [ | split ].
  - intros st Hst. apply (reachable_columns_unique st Hst).
  - intros st a b Hst. apply unique_rows_eq. apply (reachable_columns_unique st Hst).
  - intros now st row other Hin Hpk Hcode. unfold DiscountCode_save. rewrite save_run.
    rewrite (violates_true DiscountCode.id _ _ DiscountCode_clash_spec row other); auto.
Qed.

Lemma DiscountCode_code_unique_witness :
  NoDup (map DiscountCode.code (discount_codes code_store))
  /\ DiscountCode_save (DiscountCode.mk 2 "WELCOME5" 1 None 0 0 10) 11 code_store
     = (inl IntegrityError, code_store).
Proof.
  destruct DiscountCode_code_unique as (Hinv & _ & Hreject). split.
  - apply Hinv. apply reachable_step, reachable_empty.
  - apply (Hreject 11 code_store _ (welcome5 0)).
    + left. reflexivity.
    + simpl. discriminate.
    + reflexivity.
Defined.

(** X23: [Cart.customer] is one-to-one: in every reachable state of the store
    a customer has at most one cart; saving a second cart for a customer is
    rejected with an integrity error and leaves the store as it was. *)
Theorem Cart_one_per_customer :
  (forall st, reachable st -> NoDup (map Cart.customer (carts st)))
  /\ (forall st a b, reachable st -> In a (carts st) -> In b (carts st) ->
                     Cart.customer a = Cart.customer b -> a = b)
  /\ (forall now st row other,
        In other (carts st) -> Cart.id other <> Cart.id row ->
        Cart.customer other = Cart.customer row ->
        Cart_save row now st = (inl IntegrityError, st)).
Proof.
  split; [ | split ].
  - intros st Hst. apply (reachable_columns_unique st Hst).
  - intros st a b Hst. apply unique_rows_eq. apply (reachable_columns_unique st Hst).
  - intros now st row other Hin Hpk Hcust. unfold Cart_save. rewrite save_run.
    rewrite (violates_true Cart.id _ _ Cart_clash_spec row other); auto.
Qed.

Lemma Cart_one_per_customer_witness :
  NoDup (map Cart.customer (carts one_cart_store))
  /\ Cart_save (Cart.mk 2 7 false None 11) 11 one_cart_store
     = (inl IntegrityError, one_cart_store).
Proof.
  destruct Cart_one_per_customer as (Hinv & _ & Hreject). split.
  - apply Hinv. apply reachable_step, reachable_empty.
  - apply (Hreject 11 one_cart_store _ (Cart.mk 1 7 false None 10)).
    + left. reflexivity.
    + simpl. discriminate.
    + reflexivity.
Defined.

(** ** A delete leaves foreign keys with a target *)

Lemma In_categories_after_delete (at_ : DateTime) (st : Store) (k : Pk) (c : Category.t) :
  In c (categories (exec (Category_delete k) at_ st)) <->
  Category.id c <> k
  /\ exists c0, In c0 (categories st)
                /\ c = (if points_into [k] (Category.parent c0)
                        then Category_set_parent None c0 else c0).
Proof.
  unfold exec, Category_delete, modify. cbn [snd]. simpl categories.
  rewrite In_cascade, in_map_iff. split.
  - intros [[c0 [E Hin]] Hn]. split.
    + intros E'. apply Hn. left. symmetry. exact E'.
    + exists c0. split; [ exact Hin | symmetry; exact E ].
  - intros [Hk [c0 [Hin E]]]. split.
    + exists c0. split; [ symmetry; exact E | exact Hin ].
    + intros [E' | []]. apply Hk. symmetry. exact E'.
Qed.

(** X24: deleting a category leaves no parent key without a row: if before
    the delete every category's parent key had a row, so it is after it. *)
Theorem Category_delete_keeps_parents_resolvable (at_ : DateTime) (st : Store) (k : Pk) :
  (forall c q, In c (categories st) -> Category.parent c = Some q ->
               exists p, In p (categories st) /\ Category.id p = q) ->
  forall c q, In c (categories (exec (Category_delete k) at_ st)) ->
              Category.parent c = Some q ->
              exists p, In p (categories (exec (Category_delete k) at_ st))
                        /\ Category.id p = q.
Proof.
  intros Hfk c q Hc Hq.
  apply In_categories_after_delete in Hc. destruct Hc as [_ [c0 [Hc0 E]]].
  assert (Hq0 : Category.parent c0 = Some q /\ q <> k).
  { destruct (Category.parent c0) as [q0 | ] eqn:Ep; simpl in E.
    - rewrite orb_false_r in E. destruct (Z.eqb_spec q0 k) as [-> | NE].
      + subst c. simpl in Hq. discriminate.
      + subst c. rewrite Ep in Hq. injection Hq as ->. split; [ reflexivity | exact NE ].
    - subst c. rewrite Ep in Hq. discriminate. }
  destruct Hq0 as [Hq0 Hqk].
  destruct (Hfk c0 q Hc0 Hq0) as [p [Hp Hid]].
  exists (if points_into [k] (Category.parent p) then Category_set_parent None p else p).
  split.
  - apply In_categories_after_delete. split.
    + destruct (points_into [k] (Category.parent p)); simpl; congruence.
    + exists p. split; [ exact Hp | reflexivity ].
  - destruct (points_into [k] (Category.parent p)); simpl; exact Hid.
Qed.

Lemma Category_delete_keeps_parents_resolvable_witness :
  exists p, In p (categories (exec (Category_delete 4) 20 category_store))
            /\ Category.id p = 1.
Proof.
  apply (Category_delete_keeps_parents_resolvable 20 category_store 4) with (c := mugs).
  - intros c q [<- | [<- | [<- | [<- | []]]]] Hq; simpl in Hq; try discriminate;
      injection Hq as <-; exists kitchen; (split; [ left; reflexivity | reflexivity ]).
  - right. left. reflexivity.
  - reflexivity.
Defined.

(** X25: deleting a category leaves no product whose [available_discount]
    raises: if before the delete every product's category had a row, then
    after it [available_discount] returns for every product still in the
    store, at every instant. *)
Theorem Product_available_discount_after_Category_delete
    (now at_ : DateTime) (st : Store) (k : Pk) :
  (forall p, In p (products st) ->
             exists c, In c (categories st) /\ Category.id c = Product.category p) ->
  forall p, In p (products (exec (Category_delete k) at_ st)) ->
            exists l, eval Product_available_discount now
                        (bind_to p (exec (Category_delete k) at_ st)) = inr l.
Proof.
  intros Hfk p Hp.
  assert (Hp0 : In p (products st) /\ Product.category p <> k).
  { revert Hp. unfold exec, Category_delete, modify. cbn [snd]. simpl products.
    intros Hp. apply In_cascade in Hp. destruct Hp as [Hp Hn]. split; [ exact Hp | ].
    intros Hk. apply Hn. apply in_map. apply filter_In. split; [ exact Hp | ].
    simpl. rewrite orb_false_r. apply Z.eqb_eq, Hk. }
  destruct Hp0 as [Hp0 Hk].
  destruct (Hfk p Hp0) as [c [Hc Hid]].
  assert (Hc' : exists c', In c' (categories (exec (Category_delete k) at_ st))
                           /\ Category.id c' = Product.category p).
  { exists (if points_into [k] (Category.parent c) then Category_set_parent None c else c).
    split.
    - apply In_categories_after_delete. split.
      + destruct (points_into [k] (Category.parent c)); simpl; congruence.
      + exists c. split; [ exact Hc | reflexivity ].
    - destruct (points_into [k] (Category.parent c)); simpl; exact Hid. }
  unfold eval. rewrite (Product_available_discount_run now p _ Hc'). cbn [fst].
  eexists. reflexivity.
Qed.

Lemma Product_available_discount_after_Category_delete_witness :
  exists l, eval Product_available_discount 30
              (bind_to cup (exec (Category_delete 1) 20 shelf_store)) = inr l.
Proof.
  apply (Product_available_discount_after_Category_delete 30 20 shelf_store 1).
  - intros p [<- | [<- | []]].
    + exists kitchen. split; [ left; reflexivity | reflexivity ].
    + exists mugs. split; [ right; left; reflexivity | reflexivity ].
  - left. reflexivity.
Defined.
